(** * The overlay filesystem layer (package fs: inode_overlay.go, mounts_overlay.go)

    A shallow embedding of the overlay engine: name lookup and merge of an
    upper and a lower layer, whiteout-based removal, the rename emptiness
    check, extended-attribute and permission delegation, and revalidation of
    the overlay mount.

    The two backing layers are an interface in the source
    (InodeOperations, MountSourceOperations); here they are a type class
    whose methods transform an explicit world.  Every call that leaves the
    overlay code is recorded, with its answer, in a log, so that statements
    such as "the lower layer is not consulted" or "no rename call is made"
    are statements about that log.  A Go panic is an outcome of its own,
    distinct from a returned error value.

    The model is sequential.  Of the locking only its effect on what the
    code reads is kept (see [RLock]); the log.Infof lines, which change
    nothing, are left out, but for the one whose argument can panic (see
    [overlayGetFile]). *)

From Stdlib Require Import String Ascii List.
From stdpp Require Import base gmap strings list fin_maps.

Local Open Scope string_scope.
Local Open Scope list_scope.

(** ** Data model *)

(** Pointers.  A [*Inode], [*overlayEntry] or [*MountSource] is an address;
    a pointer that may be nil is an [option]. *)
Definition ino := nat.
Definition eid := nat.
Definition msrc := nat.

(** Go's [error]: nil is [None].  The named values are the [syserror]
    constants the overlay code compares against or returns; a backing layer
    may answer with any other. *)
Inductive error : Type :=
| ENOENT | ENODATA | ENOTEMPTY | EXDEV | EOPNOTSUPP | EACCES | EINVAL
| EOther (code : nat).

Global Instance error_eq_dec : EqDecision error.
Proof. solve_decision. Defined.

(** Modelled from the spec: [InodeType] is declared in attr.go, outside the
    two files embedded here; the code names [Directory] and, in a comment,
    [SpecialDirectory]; the spec speaks of regular files, symlinks, fifos and
    sockets. *)
Inductive InodeType : Type :=
| RegularFile | SpecialFile | Directory | SpecialDirectory
| Symlink | Pipe | Socket | CharacterDevice | BlockDevice | Anonymous.

Global Instance InodeType_eq_dec : EqDecision InodeType.
Proof. solve_decision. Defined.

(** Modelled from the spec: [StableAttr] (attr.go), "device id, file
    id/inode number, file type". *)
Record StableAttr : Type := mkStableAttr {
  sa_Type : InodeType;
  sa_DeviceID : nat;
  sa_InodeID : nat
}.

Global Instance StableAttr_eq_dec : EqDecision StableAttr.
Proof. solve_decision. Defined.

(** Modelled from the spec: [IsDir] (attr.go): a directory or "any
    directory-like special type". *)
Definition IsDir (s : StableAttr) : bool :=
  bool_decide (sa_Type s = Directory) || bool_decide (sa_Type s = SpecialDirectory).

(** overlayEntry: the fields guarded by copyMu. *)
Record overlayEntry : Type := mkOverlayEntry {
  lowerExists : bool;
  lower : option ino;
  upper : option ino
}.

(** The fields of [Inode] the overlay code reads and writes. *)
Record Inode : Type := mkInode {
  i_StableAttr : StableAttr;
  i_overlay : option eid;
  i_MountSource : msrc
}.

(** A Dirent is a name bound to an Inode; a negative Dirent has none. *)
Record Dirent : Type := mkDirent {
  d_Inode : option ino;
  d_name : string
}.

Definition NewDirent (inode : ino) (name : string) : Dirent :=
  {| d_Inode := Some inode; d_name := name |}.
Definition NewNegativeDirent (name : string) : Dirent :=
  {| d_Inode := None; d_name := name |}.
Definition IsNegative (d : Dirent) : bool :=
  match d_Inode d with None => true | Some _ => false end.

Record PermMask : Type := mkPermMask {
  pRead : bool;
  pWrite : bool;
  pExecute : bool
}.

(** overlayMountSourceOperations *)
Record overlayMountSourceOperations : Type := mkOverlayMount {
  ms_upper : msrc;
  ms_lower : msrc
}.

Global Instance Dirent_eq_dec : EqDecision Dirent.
Proof. solve_decision. Defined.
Global Instance PermMask_eq_dec : EqDecision PermMask.
Proof. solve_decision. Defined.
Global Instance overlayEntry_eq_dec : EqDecision overlayEntry.
Proof. solve_decision. Defined.

Global Instance StableAttr_inhabited : Inhabited StableAttr :=
  populate (mkStableAttr Anonymous 0 0).
Global Instance overlayEntry_inhabited : Inhabited overlayEntry :=
  populate (mkOverlayEntry false None None).
Global Instance Inode_inhabited : Inhabited Inode :=
  populate (mkInode inhabitant None 0).

(** ** World, log and the monad of the overlay code *)

(** The heap of Inode and overlayEntry objects and the private state [F] of
    the backing layers. *)
Record World (F : Type) : Type := mkWorld {
  inodes : gmap ino Inode;
  entries : gmap eid overlayEntry;
  fs : F
}.
Arguments mkWorld {F} _ _ _.
Arguments inodes {F} _.
Arguments entries {F} _.
Arguments fs {F} _.

(** One record per call that leaves the overlay code, with what it
    answered.  Reference counting (pkg/refs, and the Dirent's own count) is
    kept as a ledger of IncRef/DecRef events. *)
Inductive Event : Type :=
| EvLookup (dir : ino) (name : string) (child : option Dirent) (err : option error)
| EvGetxattr (i : ino) (name : string) (buf : string) (err : option error)
| EvSetxattr (i : ino) (name value : string) (err : option error)
| EvListxattr (i : ino) (names : gset string) (err : option error)
| EvRemove (dir : ino) (name : string) (err : option error)
| EvRemoveDirectory (dir : ino) (name : string) (err : option error)
| EvRename (recv : ino) (oldParent : option ino) (oldName : string)
           (newParent : option ino) (newName : string) (replacement : bool)
           (err : option error)
| EvCheck (i : ino) (p : PermMask) (err : option error)
| EvRevalidate (m : msrc) (name : string) (parent child : option ino) (r : bool)
| EvCopyUp (d : Dirent) (err : option error)
| EvReaddir (d : Dirent) (children : gset string) (err : option error)
| EvIncRef (i : ino)
| EvDecRef (i : ino)
| EvDirentDecRef (d : Dirent).

Record State (F : Type) : Type := mkState {
  world : World F;
  log : list Event
}.
Arguments mkState {F} _ _.
Arguments world {F} _.
Arguments log {F} _.

Inductive Outcome (S A : Type) : Type :=
| Done (a : A) (s : S)
| Panicked (msg : string).
Arguments Done {S A} _ _.
Arguments Panicked {S A} _.

Definition M (F A : Type) : Type := State F -> Outcome (State F) A.

Definition ret {F A} (a : A) : M F A := fun st => Done a st.
Definition bind {F A B} (m : M F A) (k : A -> M F B) : M F B :=
  fun st => match m st with
            | Done a st' => k a st'
            | Panicked msg => Panicked msg
            end.
Definition panic {F A} (msg : string) : M F A := fun _ => Panicked msg.

Declare Scope overlay_scope.
Delimit Scope overlay_scope with ov.
Notation "x <- m ;; k" := (bind m (fun x => k))
  (at level 20, m at level 99, k at level 200, only parsing) : overlay_scope.
Notation "m ;;; k" := (bind m (fun _ => k))
  (at level 100, k at level 200, only parsing, right associativity) : overlay_scope.
Notation "' pat <- m ;; k" := (bind m (fun x => match x with pat => k end))
  (at level 20, pat pattern, m at level 99, k at level 200, only parsing) : overlay_scope.
Local Open Scope overlay_scope.

(** A call out of the overlay code: run the collaborator on the world and
    append the event built from its answer. *)
Definition extern {F X} (op : World F -> X * World F) (ev : X -> Event) : M F X :=
  fun st => let '(x, w) := op (world st) in
            Done x {| world := w; log := log st ++ [ev x] |}.

Definition emit {F} (ev : Event) : M F unit :=
  fun st => Done tt {| world := world st; log := log st ++ [ev] |}.

Definition getWorld {F} : M F (World F) := fun st => Done (world st) st.
Definition putWorld {F} (w : World F) : M F unit :=
  fun st => Done tt {| world := w; log := log st |}.

(** Allocation of a new object, and the write of one field of an Inode. *)
Definition freshEntry {F} (w : World F) : eid := fresh (dom (entries w)).
Definition withEntry {F} (e : overlayEntry) (w : World F) : World F :=
  {| inodes := inodes w; entries := <[freshEntry w := e]> (entries w); fs := fs w |}.
Definition freshInode {F} (w : World F) : ino := fresh (dom (inodes w)).
Definition withInode {F} (n : Inode) (w : World F) : World F :=
  {| inodes := <[freshInode w := n]> (inodes w); entries := entries w; fs := fs w |}.
Definition withStableAttr {F} (i : ino) (a : StableAttr) (w : World F) : World F :=
  let old := inodes w !!! i in
  {| inodes := <[i := mkInode a (i_overlay old) (i_MountSource old)]> (inodes w);
     entries := entries w;
     fs := fs w |}.

(** strings.HasPrefix(s, prefix): s begins with prefix. *)
Definition HasPrefix (s prefix : string) : bool := String.prefix prefix s.

(** ** The collaborators *)

(** The capability each backing layer provides.  [i.Lookup], [i.Getxattr],
    [i.Listxattr] and [i.check] are methods of Inode (inode.go) that end in
    the layer's implementation; they are taken here as that capability. *)
Class InodeOperations (F : Type) : Type := {
  op_Lookup : ino -> string -> World F -> (option Dirent * option error) * World F;
  op_Getxattr : ino -> string -> World F -> (string * option error) * World F;
  op_Setxattr : ino -> string -> string -> World F -> option error * World F;
  op_Listxattr : ino -> World F -> (gset string * option error) * World F;
  op_Remove : ino -> string -> World F -> option error * World F;
  op_RemoveDirectory : ino -> string -> World F -> option error * World F;
  op_Rename : ino -> option ino -> string -> option ino -> string -> bool ->
              World F -> option error * World F;
  op_check : ino -> PermMask -> World F -> option error * World F
}.

(** MountSource.Revalidate of the upper and lower mounts. *)
Class MountSourceOperations (F : Type) : Type := {
  op_Revalidate : msrc -> string -> option ino -> option ino -> World F -> bool * World F
}.

(** Functions and constants of package fs that the overlay code uses and
    that are declared in other files of the package: the copy-up protocol
    (copy_up.go), readdirOne (file_overlay.go), the reserved attribute
    namespace (inode.go) and the check newOverlayEntry makes before it
    builds an entry (overlay.go).  They are parameters. *)
Class OverlayDeps (F : Type) : Type := {
  XattrOverlayPrefix : string;
  XattrOverlayWhiteout : string -> string;
  op_copyUpLockedForRename : Dirent -> World F -> option error * World F;
  op_readdirOne : Dirent -> World F -> (gset string * option error) * World F;
  newOverlayEntry_check : World F -> option ino -> option ino -> bool -> option error
}.

Section Overlay.
Context {F : Type} `{!InodeOperations F, !MountSourceOperations F, !OverlayDeps F}.

#[local] Abbreviation M := (M F).

Definition Inode_Lookup (i : ino) (name : string) : M (option Dirent * option error) :=
  extern (op_Lookup i name) (fun r => EvLookup i name (fst r) (snd r)).
Definition Inode_Getxattr (i : ino) (name : string) : M (string * option error) :=
  extern (op_Getxattr i name) (fun r => EvGetxattr i name (fst r) (snd r)).
Definition Inode_Setxattr (i : ino) (name value : string) : M (option error) :=
  extern (op_Setxattr i name value) (fun r => EvSetxattr i name value r).
Definition Inode_Listxattr (i : ino) : M (gset string * option error) :=
  extern (op_Listxattr i) (fun r => EvListxattr i (fst r) (snd r)).
Definition Inode_Remove (dir : ino) (name : string) : M (option error) :=
  extern (op_Remove dir name) (fun r => EvRemove dir name r).
Definition Inode_RemoveDirectory (dir : ino) (name : string) : M (option error) :=
  extern (op_RemoveDirectory dir name) (fun r => EvRemoveDirectory dir name r).
Definition Inode_Rename (recv : ino) (oldParent : option ino) (oldName : string)
    (newParent : option ino) (newName : string) (replacement : bool) : M (option error) :=
  extern (op_Rename recv oldParent oldName newParent newName replacement)
         (fun r => EvRename recv oldParent oldName newParent newName replacement r).
Definition Inode_check (i : ino) (p : PermMask) : M (option error) :=
  extern (op_check i p) (fun r => EvCheck i p r).
Definition MountSource_Revalidate (m : msrc) (name : string)
    (parent child : option ino) : M bool :=
  extern (op_Revalidate m name parent child) (fun r => EvRevalidate m name parent child r).
Definition copyUpLockedForRename (d : Dirent) : M (option error) :=
  extern (op_copyUpLockedForRename d) (fun r => EvCopyUp d r).
Definition readdirOne (d : Dirent) : M (gset string * option error) :=
  extern (op_readdirOne d) (fun r => EvReaddir d (fst r) (snd r)).

Definition IncRef (i : ino) : M unit := emit (EvIncRef i).
Definition DecRef (i : ino) : M unit := emit (EvDecRef i).
Definition Dirent_DecRef (d : Dirent) : M unit := emit (EvDirentDecRef d).

(** Reading through a pointer. *)
Definition loadInode (i : ino) : M Inode :=
  fun st => Done (inodes (world st) !!! i) st.
Definition loadEntry (o : eid) : M overlayEntry :=
  fun st => Done (entries (world st) !!! o) st.

(** [o.copyMu.RLock()]: while the read lock is held no copy-up can change
    the entry, so the code between RLock and RUnlock sees one value of
    (upper, lower, lowerExists); RLock hands out that value. *)
Definition RLock (o : eid) : M overlayEntry := loadEntry o.

(** A method call or field access through a nil pointer. *)
Definition nilDeref {A} : M A := panic "nil pointer dereference".
Definition deref {A} (p : option A) : M A :=
  match p with Some a => ret a | None => nilDeref end.

(** ** Extended attributes *)

(** func overlayGetxattr(o *overlayEntry, name string) ([]byte, error) *)
Definition overlayGetxattr (o : eid) (name : string) : M (string * option error) :=
  if HasPrefix XattrOverlayPrefix name then ret ("", Some ENODATA)
  else
    e <- RLock o ;;
    match upper e with
    | Some u => Inode_Getxattr u name
    | None => l <- deref (lower e) ;; Inode_Getxattr l name
    end.

(** func overlayListxattr(o *overlayEntry) (map[string]struct{}, error) *)
Definition overlayListxattr (o : eid) : M (gset string * option error) :=
  e <- RLock o ;;
  r <- match upper e with
       | Some u => Inode_Listxattr u
       | None => l <- deref (lower e) ;; Inode_Listxattr l
       end ;;
  let names := filter (fun name => HasPrefix XattrOverlayPrefix name = false) (fst r) in
  ret (names, snd r).

(** ** Whiteouts *)

(** func overlayHasWhiteout(parent *Inode, name string) bool *)
Definition overlayHasWhiteout (parent : ino) (name : string) : M bool :=
  '(buf, err) <- Inode_Getxattr parent (XattrOverlayWhiteout name) ;;
  ret (bool_decide (err = None) && bool_decide (buf = "y")).

(** func overlayCreateWhiteout(parent *Inode, name string) error *)
Definition overlayCreateWhiteout (parent : ino) (name : string) : M (option error) :=
  Inode_Setxattr parent (XattrOverlayWhiteout name) "y".

(** ** Building entries and overlay inodes *)

(** Modelled from the spec: newOverlayEntry (declared in overlay.go).  An
    entry pairs upper, lower and the lower-existed flag; one with neither
    upper nor lower is fatal; the function may refuse with an error (the
    callers handle it), which [newOverlayEntry_check] decides. *)
Definition newOverlayEntry (upperInode lowerInode : option ino) (lowerEx : bool)
    : M (option eid * option error) :=
  match upperInode, lowerInode with
  | None, None => panic "invalid overlayEntry, needs at least one Inode"
  | _, _ =>
    w <- getWorld ;;
    match newOverlayEntry_check w upperInode lowerInode lowerEx with
    | Some err => ret (None, Some err)
    | None =>
      putWorld (withEntry (mkOverlayEntry lowerEx lowerInode upperInode) w) ;;;
      ret (Some (freshEntry w), None)
    end
  end.

(** Modelled from the spec: newOverlayInode (declared in overlay.go): a
    new Inode whose overlay extension is the entry; it presents the stable
    attributes of the upper counterpart when there is one, else of the
    lower. *)
Definition newOverlayInode (o : eid) (m : msrc) : M ino :=
  e <- loadEntry o ;;
  src <- match upper e with
         | Some u => ret u
         | None => deref (lower e)
         end ;;
  from <- loadInode src ;;
  w <- getWorld ;;
  putWorld (withInode (mkInode (i_StableAttr from) (Some o) m) w) ;;;
  ret (freshInode w).

(** [upperInode.StableAttr = lowerInode.StableAttr] *)
Definition setStableAttr (i : ino) (a : StableAttr) : M unit :=
  w <- getWorld ;;
  putWorld (withStableAttr i a w).

(** ** Lookup *)

(** The three results of overlayLookup: the Dirent, whether it is in the
    upper layer, and the error. *)
Definition LookupResult : Type := option Dirent * bool * option error.

(** [err != nil && err != syserror.ENOENT] *)
Definition unhandled (err : option error) : bool :=
  match err with
  | Some e => negb (bool_decide (e = ENOENT))
  | None => false
  end.

(** overlayLookup from "Was all of this for naught?" to its end. *)
Definition overlayLookup_merge (inode : ino) (name : string)
    (upperInode lowerInode : option ino) (negativeUpperChild : bool) : M LookupResult :=
  match upperInode, lowerInode with
  | None, None =>
    if negativeUpperChild then ret (Some (NewNegativeDirent name), false, None)
    else ret (None, false, Some ENOENT)
  | _, _ =>
    let lowerEx := bool_decide (lowerInode <> None) in
    lowerInode' <- match upperInode, lowerInode with
                   | Some u, Some l =>
                     (* Steal attributes. *)
                     li <- loadInode l ;;
                     setStableAttr u (i_StableAttr li) ;;;
                     ui <- loadInode u ;;
                     if negb (IsDir (i_StableAttr ui))
                     then DecRef l ;;; ret None
                     else ret (Some l)
                   | _, _ => ret lowerInode
                   end ;;
    '(entry, err) <- newOverlayEntry upperInode lowerInode' lowerEx ;;
    match err with
    | Some e =>
      match upperInode with Some u => DecRef u | None => ret tt end ;;;
      match lowerInode' with Some l => DecRef l | None => ret tt end ;;;
      ret (None, false, Some e)
    | None =>
      en <- deref entry ;;
      pi <- loadInode inode ;;
      oi <- newOverlayInode en (i_MountSource pi) ;;
      ret (Some (NewDirent oi name), bool_decide (upperInode <> None), None)
    end
  end.

(** overlayLookup from "Check the lower file system" on. *)
Definition overlayLookup_lower (p : overlayEntry) (inode : ino) (name : string)
    (upperInode : option ino) (negativeUpperChild : bool) : M LookupResult :=
  match lower p with
  | Some pl =>
    '(child, err) <- Inode_Lookup pl name ;;
    if unhandled err then
      match upperInode with Some u => DecRef u | None => ret tt end ;;;
      ret (None, false, err)
    else
      lowerInode <- match child with
                    | Some c =>
                      li <- match d_Inode c with
                            | None => ret None (* child.IsNegative() *)
                            | Some ci =>
                              match upperInode with
                              | None => IncRef ci ;;; ret (Some ci)
                              | Some u =>
                                ua <- loadInode u ;;
                                ca <- loadInode ci ;;
                                if bool_decide (sa_Type (i_StableAttr ua) = sa_Type (i_StableAttr ca))
                                   || (IsDir (i_StableAttr ua) && IsDir (i_StableAttr ca))
                                then IncRef ci ;;; ret (Some ci)
                                else ret None
                              end
                            end ;;
                      Dirent_DecRef c ;;;
                      ret li
                    | None => ret None
                    end ;;
      overlayLookup_merge inode name upperInode lowerInode negativeUpperChild
  | None => overlayLookup_merge inode name upperInode None negativeUpperChild
  end.

(** func overlayLookup(ctx, parent *overlayEntry, inode *Inode, name string) *)
Definition overlayLookup (parent : eid) (inode : ino) (name : string) : M LookupResult :=
  p <- RLock parent ;;
  match upper p, lower p with
  | None, None => panic "invalid overlayEntry, needs at least one Inode"
  | None, Some _ => overlayLookup_lower p inode name None false
  | Some pu, _ =>
    '(child, err) <- Inode_Lookup pu name ;;
    if unhandled err then ret (None, false, err)
    else
      '(upperInode, negativeUpperChild) <-
          match child with
          | Some c =>
            r <- match d_Inode c with
                 | None => ret (None, true) (* child.IsNegative() *)
                 | Some ci => IncRef ci ;;; ret (Some ci, false)
                 end ;;
            Dirent_DecRef c ;;;
            ret r
          | None => ret (None, false)
          end ;;
      (* Are we done? *)
      whiteout <- overlayHasWhiteout pu name ;;
      if whiteout then
        match upperInode with
        | None =>
          if negativeUpperChild then ret (Some (NewNegativeDirent name), false, None)
          else ret (None, false, Some ENOENT)
        | Some u =>
          '(entry, err) <- newOverlayEntry (Some u) None false ;;
          match err with
          | Some e => DecRef u ;;; ret (None, false, Some e)
          | None =>
            en <- deref entry ;;
            pi <- loadInode inode ;;
            oi <- newOverlayInode en (i_MountSource pi) ;;
            ret (Some (NewDirent oi name), true, None)
          end
        end
      else overlayLookup_lower p inode name upperInode negativeUpperChild
  end.

(** ** Remove and rename *)

(** [d.Inode.overlay], through two pointers either of which may be nil. *)
Definition overlayOf (d : Dirent) : M eid :=
  i <- deref (d_Inode d) ;;
  n <- loadInode i ;;
  deref (i_overlay n).

(** [o.upper] used as the receiver of a call. *)
Definition upperOf (o : eid) : M ino :=
  e <- loadEntry o ;;
  deref (upper e).

(** func overlayRemove(ctx, o *overlayEntry, parent *Dirent, child *Dirent) error *)
Definition overlayRemove (o : eid) (parent child : Dirent) : M (option error) :=
  err <- copyUpLockedForRename parent ;;
  match err with
  | Some e => ret (Some e)
  | None =>
    ce <- overlayOf child ;;
    c <- RLock ce ;;
    err <- match upper c with
           | Some _ =>
             ci <- deref (d_Inode child) ;;
             cn <- loadInode ci ;;
             u <- upperOf o ;;
             if bool_decide (sa_Type (i_StableAttr cn) = Directory)
             then Inode_RemoveDirectory u (d_name child)
             else Inode_Remove u (d_name child)
           | None => ret None
           end ;;
    match err with
    | Some e => ret (Some e)
    | None =>
      if lowerExists c then
        u <- upperOf o ;;
        overlayCreateWhiteout u (d_name child)
      else ret None
    end
  end.

(** [d.Inode.overlay == nil] *)
Definition overlayIsNil (d : Dirent) : M bool :=
  i <- deref (d_Inode d) ;;
  n <- loadInode i ;;
  ret (bool_decide (i_overlay n = None)).

(** The [if replacement { ... }] block of overlayRename: [inl err] when the
    block returns from overlayRename, [inr replacement] when control goes
    on with the (possibly cleared) flag. *)
Definition overlayRename_replaced (newParent : Dirent) (newName : string)
    (replacement : bool) : M (option error + bool) :=
  if replacement then
    ne <- overlayOf newParent ;;
    ni <- deref (d_Inode newParent) ;;
    '(replaced, inUpper, err) <- overlayLookup ne ni newName ;;
    match err with
    | Some e =>
      if bool_decide (e = ENOENT) then ret (inr replacement) else ret (inl (Some e))
    | None =>
      let replacement := if inUpper then replacement else false in
      rd <- deref replaced ;;
      match d_Inode rd with
      | None => Dirent_DecRef rd ;;; ret (inr replacement) (* replaced.IsNegative() *)
      | Some ri =>
        rn <- loadInode ri ;;
        if IsDir (i_StableAttr rn) then
          '(children, err) <- readdirOne rd ;;
          match err with
          | Some e => Dirent_DecRef rd ;;; ret (inl (Some e))
          | None =>
            if bool_decide (0 < size children)
            then Dirent_DecRef rd ;;; ret (inl (Some ENOTEMPTY))
            else Dirent_DecRef rd ;;; ret (inr replacement)
          end
        else Dirent_DecRef rd ;;; ret (inr replacement)
      end
    end
  else ret (inr replacement).

(** func overlayRename(ctx, o *overlayEntry, oldParent *Dirent, renamed *Dirent,
      newParent *Dirent, newName string, replacement bool) error *)
Definition overlayRename (o : eid) (oldParent renamed newParent : Dirent)
    (newName : string) (replacement : bool) : M (option error) :=
  n1 <- overlayIsNil renamed ;;
  n2 <- (if n1 then ret true else overlayIsNil newParent) ;;
  n3 <- (if n2 then ret true else overlayIsNil oldParent) ;;
  if n3 then ret (Some EXDEV)
  else
    r <- overlayRename_replaced newParent newName replacement ;;
    match r with
    | inl err => ret err
    | inr replacement =>
      err <- copyUpLockedForRename renamed ;;
      match err with
      | Some e => ret (Some e)
      | None =>
        err <- copyUpLockedForRename newParent ;;
        match err with
        | Some e => ret (Some e)
        | None =>
          let oldName := d_name renamed in
          u <- upperOf o ;;
          oe <- overlayOf oldParent ;;
          oE <- loadEntry oe ;;
          ne <- overlayOf newParent ;;
          nE <- loadEntry ne ;;
          err <- Inode_Rename u (upper oE) oldName (upper nE) newName replacement ;;
          match err with
          | Some e => ret (Some e)
          | None =>
            re <- overlayOf renamed ;;
            rE <- loadEntry re ;;
            if lowerExists rE then
              oe <- overlayOf oldParent ;;
              ou <- upperOf oe ;;
              overlayCreateWhiteout ou oldName
            else ret None
          end
        end
      end
    end.

(** ** Permission check *)

(** func overlayCheck(ctx, o *overlayEntry, p PermMask) error *)
Definition overlayCheck (o : eid) (p : PermMask) : M (option error) :=
  e <- RLock o ;;
  match upper e with
  | Some u => Inode_check u p
  | None =>
    let p := if pWrite p
             then {| pRead := true; pWrite := false; pExecute := pExecute p |}
             else p in
    l <- deref (lower e) ;;
    Inode_check l p
  end.

(** ** The overlay mount *)

(** func (o *overlayMountSourceOperations) Revalidate(ctx, name string,
      parent, child *Inode) bool *)
Definition Revalidate (o : overlayMountSourceOperations) (name : string)
    (parent child : ino) : M bool :=
  c <- loadInode child ;;
  match i_overlay c with
  | None => panic "overlay cannot revalidate inode that is not an overlay"
  | Some ce =>
    p <- loadInode parent ;;
    match i_overlay p with
    | None => panic "trying to revalidate an overlay inode but the parent is not an overlay"
    | Some pe =>
      (* We can't revalidate from the lower filesystem. *)
      cE <- loadEntry ce ;;
      pE <- loadEntry pe ;;
      fromLower <- match lower cE with
                   | Some cl => MountSource_Revalidate (ms_lower o) name (lower pE) (Some cl)
                   | None => ret false
                   end ;;
      if fromLower
      then panic "an overlay cannot revalidate file objects from the lower fs"
      else
        (* Do we have anything to revalidate? *)
        c <- loadInode child ;;
        ce <- deref (i_overlay c) ;;
        cE <- loadEntry ce ;;
        match upper cE with
        | None => ret false
        | Some cu =>
          (* Does the upper require revalidation? *)
          p <- loadInode parent ;;
          pe <- deref (i_overlay p) ;;
          pE <- loadEntry pe ;;
          MountSource_Revalidate (ms_upper o) name (upper pE) (Some cu)
        end
    end
  end.

End Overlay.

(** ** Vocabulary of the statements

    What a log says, and the outcomes of the steps the statements below
    speak about, in terms of the collaborators' answers. *)

(** The calls that change a layer or the overlay's view of it: copy-up,
    writing an attribute, removal and rename. *)
Definition mutation (ev : Event) : bool :=
  match ev with
  | EvCopyUp _ _ | EvSetxattr _ _ _ _ | EvRemove _ _ _ | EvRemoveDirectory _ _ _
  | EvRename _ _ _ _ _ _ _ => true
  | _ => false
  end.

(** The lookups recorded in a log: directory inode and name, in order. *)
Fixpoint lookupsOf (evs : list Event) : list (ino * string) :=
  match evs with
  | [] => []
  | EvLookup dir name _ _ :: rest => (dir, name) :: lookupsOf rest
  | _ :: rest => lookupsOf rest
  end.

(** Whether a layer's answer to a lookup is a negative Dirent. *)
Definition answeredNegative (child : option Dirent) : bool :=
  match child with
  | Some c => IsNegative c
  | None => false
  end.

(** The Dirent a layer handed out is released once its Inode is taken. *)
Definition released (child : option Dirent) : list Event :=
  match child with
  | Some c => [EvDirentDecRef c]
  | None => []
  end.

(** The mask overlayCheck hands to the lower layer. *)
Definition lowerMask (p : PermMask) : PermMask :=
  if pWrite p then {| pRead := true; pWrite := false; pExecute := pExecute p |} else p.

Section Vocabulary.
Context {F : Type} `{!InodeOperations F, !MountSourceOperations F, !OverlayDeps F}.

(** A layer's answer that reports the name absent: no error other than
    not-found, and no Dirent or a negative one. *)
Definition absent (child : option Dirent) (err : option error) : bool :=
  negb (unhandled err)
  && match child with Some c => IsNegative c | None => true end.

Definition allAbsent (evs : list Event) : bool :=
  forallb (fun ev => match ev with
                     | EvLookup _ _ child err => absent child err
                     | _ => true
                     end) evs.

(** Whether the upper layer's own lookup answers with a negative Dirent. *)
Definition upperNegative (p : overlayEntry) (name : string) (w : World F) : bool :=
  match upper p with
  | Some pu => answeredNegative (fst (fst (op_Lookup pu name w)))
  | None => false
  end.

(** Whether a layer, asked for the name in the directory [dir], produces no
    match: it reports the name absent.  A parent without that counterpart
    has no match there. *)
Definition noMatch (dir : option ino) (name : string) (w : World F) : bool :=
  match dir with
  | Some d => absent (fst (fst (op_Lookup d name w))) (snd (fst (op_Lookup d name w)))
  | None => true
  end.

(** The world in which overlayLookup turns to the lower layer: the one it
    was given when the parent has no upper counterpart, else the one that
    the upper layer's lookup and the read of the whiteout marker leave. *)
Definition afterUpper (p : overlayEntry) (name : string) (w : World F) : World F :=
  match upper p with
  | Some pu => snd (op_Getxattr pu (XattrOverlayWhiteout name) (snd (op_Lookup pu name w)))
  | None => w
  end.

(** The upper layer has nothing to say about the name: the parent has no
    upper counterpart, or the upper layer reports the name absent and the
    parent's upper directory carries no whiteout marker for it.  The
    relation gives the world the upper phase leaves and the calls it
    made. *)
Inductive upperSilent (p : overlayEntry) (name : string) (w : World F)
    : World F -> list Event -> Prop :=
| silent_no_upper :
    upper p = None ->
    upperSilent p name w w []
| silent_absent (pu : ino) (child : option Dirent) (err : option error)
                (wA : World F) (buf : string) (gerr : option error) (wB : World F) :
    upper p = Some pu ->
    op_Lookup pu name w = ((child, err), wA) ->
    absent child err = true ->
    op_Getxattr pu (XattrOverlayWhiteout name) wA = ((buf, gerr), wB) ->
    ~ (gerr = None /\ buf = "y") ->
    upperSilent p name w wB
      (EvLookup pu name child err :: released child
       ++ [EvGetxattr pu (XattrOverlayWhiteout name) buf gerr]).

(** The removal overlayRemove delegates to the upper layer when the child
    has an upper counterpart: RemoveDirectory for a Directory, Remove for
    anything else; nothing when the child has none.  Result, world left,
    and the record in the log. *)
Definition upperRemoval (u : ino) (name : string) (c : overlayEntry) (t : InodeType)
    (w : World F) : option error * World F * list Event :=
  match upper c with
  | Some _ =>
    if bool_decide (t = Directory)
    then let r := op_RemoveDirectory u name w in
         (fst r, snd r, [EvRemoveDirectory u name (fst r)])
    else let r := op_Remove u name w in
         (fst r, snd r, [EvRemove u name (fst r)])
  | None => (None, w, [])
  end.

(** The question Revalidate puts to the lower mount, when the child has a
    lower counterpart: the answer, the world it leaves and the record in
    the log. *)
Definition lowerRevalidate (o : overlayMountSourceOperations) (name : string)
    (pE cE : overlayEntry) (w : World F) : bool * World F * list Event :=
  match lower cE with
  | Some cl =>
    let r := op_Revalidate (ms_lower o) name (lower pE) (Some cl) w in
    (fst r, snd r, [EvRevalidate (ms_lower o) name (lower pE) (Some cl) (fst r)])
  | None => (false, w, [])
  end.

End Vocabulary.

(** ** An in-memory backing layer

    A small backing layer to run the overlay code on concrete trees:
    directories map names to inodes, every inode carries its extended
    attributes and a permission mask. *)
Module MemFS.

Record Node : Type := mkNode {
  children : gmap string ino;
  xattrs : gmap string string;
  mode : PermMask
}.

Record t : Type := mk {
  nodes : gmap ino Node;
  (* directories whose layer answers an absent name with a negative Dirent *)
  negative : gset ino;
  (* mounts whose Revalidate asks for revalidation *)
  revalidating : gset msrc
}.

Global Instance Node_inhabited : Inhabited Node :=
  populate (mkNode ∅ ∅ (mkPermMask false false false)).

Definition setNode (i : ino) (n : Node) (w : World t) : World t :=
  {| inodes := inodes w;
     entries := entries w;
     fs := {| nodes := <[i := n]> (nodes (fs w));
              negative := negative (fs w);
              revalidating := revalidating (fs w) |} |}.

Definition node (w : World t) (i : ino) : Node := nodes (fs w) !!! i.

Definition Lookup (dir : ino) (name : string) (w : World t)
    : (option Dirent * option error) * World t :=
  match children (node w dir) !! name with
  | Some c => ((Some (NewDirent c name), None), w)
  | None =>
    if bool_decide (dir ∈ negative (fs w))
    then ((Some (NewNegativeDirent name), None), w)
    else ((None, Some ENOENT), w)
  end.

Definition Getxattr (i : ino) (name : string) (w : World t)
    : (string * option error) * World t :=
  match xattrs (node w i) !! name with
  | Some v => ((v, None), w)
  | None => (("", Some ENODATA), w)
  end.

Definition Setxattr (i : ino) (name value : string) (w : World t)
    : option error * World t :=
  let n := node w i in
  (None, setNode i (mkNode (children n) (<[name := value]> (xattrs n)) (mode n)) w).

Definition Listxattr (i : ino) (w : World t) : (gset string * option error) * World t :=
  ((dom (xattrs (node w i)), None), w).

Definition Remove (dir : ino) (name : string) (w : World t) : option error * World t :=
  let n := node w dir in
  match children n !! name with
  | Some _ => (None, setNode dir (mkNode (delete name (children n)) (xattrs n) (mode n)) w)
  | None => (Some ENOENT, w)
  end.

Definition Rename (recv : ino) (oldParent : option ino) (oldName : string)
    (newParent : option ino) (newName : string) (replacement : bool) (w : World t)
    : option error * World t :=
  match oldParent, newParent with
  | Some op, Some np =>
    let n := node w op in
    match children n !! oldName with
    | Some c =>
      let w1 := setNode op (mkNode (delete oldName (children n)) (xattrs n) (mode n)) w in
      let m := node w1 np in
      (None, setNode np (mkNode (<[newName := c]> (children m)) (xattrs m) (mode m)) w1)
    | None => (Some ENOENT, w)
    end
  | _, _ => (Some EINVAL, w)
  end.

Definition check (i : ino) (p : PermMask) (w : World t) : option error * World t :=
  let m := mode (node w i) in
  if (implb (pRead p) (pRead m)) && (implb (pWrite p) (pWrite m))
     && (implb (pExecute p) (pExecute m))
  then (None, w) else (Some EACCES, w).

Definition Revalidate (m : msrc) (name : string) (parent child : option ino)
    (w : World t) : bool * World t :=
  (bool_decide (m ∈ revalidating (fs w)), w).

(** Copy-up of an entry that already has its upper counterpart is a no-op;
    this layer offers no other. *)
Definition copyUp (d : Dirent) (w : World t) : option error * World t :=
  match d_Inode d with
  | Some i =>
    match i_overlay (inodes w !!! i) with
    | Some e =>
      match upper (entries w !!! e) with
      | Some _ => (None, w)
      | None => (Some EOPNOTSUPP, w)
      end
    | None => (Some EINVAL, w)
    end
  | None => (Some EINVAL, w)
  end.

(** The names bound in either layer of an overlay directory. *)
Definition readdir (d : Dirent) (w : World t) : (gset string * option error) * World t :=
  match d_Inode d with
  | Some i =>
    match i_overlay (inodes w !!! i) with
    | Some e =>
      let E := entries w !!! e in
      let names (o : option ino) : gset string :=
        match o with Some x => dom (children (node w x)) | None => ∅ end in
      ((names (upper E) ∪ names (lower E), None), w)
    | None => ((dom (children (node w i)), None), w)
    end
  | None => ((∅, Some ENOENT), w)
  end.

(** An upper counterpart must not itself be an overlay inode. *)
Definition entryCheck (w : World t) (up lo : option ino) (lowerEx : bool) : option error :=
  match up with
  | Some u => if bool_decide (i_overlay (inodes w !!! u) = None) then None else Some EINVAL
  | None => None
  end.

Global Instance inodeOperations : InodeOperations t := {|
  op_Lookup := Lookup;
  op_Getxattr := Getxattr;
  op_Setxattr := Setxattr;
  op_Listxattr := Listxattr;
  op_Remove := Remove;
  op_RemoveDirectory := Remove;
  op_Rename := Rename;
  op_check := check
|}.

Global Instance mountSourceOperations : MountSourceOperations t := {|
  op_Revalidate := Revalidate
|}.

Global Instance overlayDeps : OverlayDeps t := {|
  XattrOverlayPrefix := "trusted.overlay.";
  XattrOverlayWhiteout := fun name => "trusted.overlay.whiteout." +:+ name;
  op_copyUpLockedForRename := copyUp;
  op_readdirOne := readdir;
  newOverlayEntry_check := entryCheck
|}.

(** *** A tree to run on

    upper layer:  inode 1 = "/" (empty directory)
    lower layer:  inode 2 = "/", with "x" (regular file, inode 3) and
                  "d" (directory, inode 4) holding "f" (inode 5)
    overlay:      inode 10 = "/" with entry 0 (upper 1, lower 2),
                  inode 11 = "x" with entry 1 (lower 3 only),
                  inode 12 = "d" with entry 2 (lower 4 only) *)
Definition rwx : PermMask := mkPermMask true true true.
Definition rx : PermMask := mkPermMask true false true.

Definition dirAttr (n : nat) : StableAttr := mkStableAttr Directory 7 n.
Definition fileAttr (n : nat) : StableAttr := mkStableAttr RegularFile 7 n.

Definition tree (upperXattrs : gmap string string) (upperChildren : gmap string ino)
    (neg : gset ino) (reval : gset msrc) : World t :=
  {| inodes := {[ 1 := mkInode (dirAttr 1) None 1;
                  2 := mkInode (dirAttr 2) None 2;
                  3 := mkInode (fileAttr 3) None 2;
                  4 := mkInode (dirAttr 4) None 2;
                  5 := mkInode (fileAttr 5) None 2;
                  6 := mkInode (fileAttr 6) None 1;
                  10 := mkInode (dirAttr 2) (Some 0) 0;
                  11 := mkInode (fileAttr 3) (Some 1) 0;
                  12 := mkInode (dirAttr 4) (Some 2) 0 ]};
     entries := {[ 0 := mkOverlayEntry true (Some 2) (Some 1);
                   1 := mkOverlayEntry true (Some 3) None;
                   2 := mkOverlayEntry true (Some 4) None ]};
     fs := {| nodes := {[ 1 := mkNode upperChildren upperXattrs rwx;
                          2 := mkNode {[ "x" := 3; "d" := 4 ]} ∅ rx;
                          3 := mkNode ∅ ∅ rx;
                          4 := mkNode {[ "f" := 5 ]} ∅ rx;
                          5 := mkNode ∅ ∅ rx;
                          6 := mkNode ∅ ∅ rwx ]};
              negative := neg;
              revalidating := reval |} |}.

Definition start (w : World t) : State t := {| world := w; log := [] |}.

End MemFS.


(** * The rest of the overlay code

    ** The reference ledger

    The references on Inodes that a log takes and drops. *)
Fixpoint taken (i : ino) (evs : list Event) : nat :=
  match evs with
  | [] => 0
  | EvIncRef j :: rest => (if bool_decide (j = i) then 1 else 0) + taken i rest
  | _ :: rest => taken i rest
  end.

Fixpoint dropped (i : ino) (evs : list Event) : nat :=
  match evs with
  | [] => 0
  | EvDecRef j :: rest => (if bool_decide (j = i) then 1 else 0) + dropped i rest
  | _ :: rest => dropped i rest
  end.

(** The reference an entry holds on [i] through one of its two pointers. *)
Definition owes (p : option ino) (i : ino) : nat :=
  if bool_decide (p = Some i) then 1 else 0.

Section Results.
Context {F : Type} `{!InodeOperations F, !MountSourceOperations F, !OverlayDeps F}.

(** What a result of overlayLookup for [name] is, with the world [w'] it
    leaves and the events [evs] it logged: exactly one of a Dirent and an
    error.  A negative Dirent and an error leave no reference behind; a
    Dirent with an Inode bears the name, its Inode is an overlay Inode whose
    entry has a counterpart, and the references taken and not dropped are
    those the entry holds. *)
Definition lookupResultOk (name : string) (w' : World F) (evs : list Event)
    (r : LookupResult) : Prop :=
  match r with
  | (Some d, inUpper, None) =>
    match d_Inode d with
    | None => d = NewNegativeDirent name /\ inUpper = false
              /\ forall i, taken i evs = dropped i evs
    | Some oi =>
      d_name d = name
      /\ exists en, i_overlay (inodes w' !!! oi) = Some en
           /\ let e := entries w' !!! en in
              (upper e <> None \/ lower e <> None)
              /\ inUpper = bool_decide (upper e <> None)
              /\ (lower e <> None -> lowerExists e = true)
              /\ forall i, taken i evs = dropped i evs + owes (upper e) i + owes (lower e) i
    end
  | (None, inUpper, Some _) => inUpper = false /\ forall i, taken i evs = dropped i evs
  | _ => False
  end.

(** ** The steps of remove and rename *)

(** The removal overlayRemove delegates to the upper layer: one call, of
    Remove or of RemoveDirectory, for the name, with its answer. *)
Inductive removal (name : string) (err : option error) : list Event -> Prop :=
| removal_file u : removal name err [EvRemove u name err]
| removal_directory u : removal name err [EvRemoveDirectory u name err].

(** The calls of overlayRemove, in order, with the result they lead to: the
    copy-up of the parent; then, unless it failed, at most one removal;
    then, unless that failed, at most one write of the marker, whose answer
    is the result. *)
Inductive removeSteps (parent : Dirent) (name : string) :
    list Event -> option error -> Prop :=
| remove_copy_failed e :
    removeSteps parent name [EvCopyUp parent (Some e)] (Some e)
| remove_removal_failed r e :
    removal name (Some e) r ->
    removeSteps parent name (EvCopyUp parent None :: r) (Some e)
| remove_no_marker r :
    r = [] \/ removal name None r ->
    removeSteps parent name (EvCopyUp parent None :: r) None
| remove_marker r u res :
    r = [] \/ removal name None r ->
    removeSteps parent name
      (EvCopyUp parent None :: r ++ [EvSetxattr u (XattrOverlayWhiteout name) "y" res]) res.

(** The calls of overlayRename that change a layer, in order, with the
    result they lead to; [flag] is the replacement flag handed to Rename. *)
Inductive renameSteps (renamed newParent : Dirent) (newName : string) (flag : bool) :
    list Event -> option error -> Prop :=
| rename_copy_renamed_failed e :
    renameSteps renamed newParent newName flag [EvCopyUp renamed (Some e)] (Some e)
| rename_copy_parent_failed e :
    renameSteps renamed newParent newName flag
      [EvCopyUp renamed None; EvCopyUp newParent (Some e)] (Some e)
| rename_failed u op np e :
    renameSteps renamed newParent newName flag
      [EvCopyUp renamed None; EvCopyUp newParent None;
       EvRename u op (d_name renamed) np newName flag (Some e)] (Some e)
| rename_no_marker u op np :
    renameSteps renamed newParent newName flag
      [EvCopyUp renamed None; EvCopyUp newParent None;
       EvRename u op (d_name renamed) np newName flag None] None
| rename_marker u op np ou res :
    renameSteps renamed newParent newName flag
      [EvCopyUp renamed None; EvCopyUp newParent None;
       EvRename u op (d_name renamed) np newName flag None;
       EvSetxattr ou (XattrOverlayWhiteout (d_name renamed)) "y" res] res.

(** overlayRename from its first copy-up on, with the replacement flag as
    the block before it left it. *)
Definition overlayRename_tail (o : eid) (oldParent renamed newParent : Dirent)
    (newName : string) (replacement : bool) : M F (option error) :=
  (err <- copyUpLockedForRename renamed ;;
   match err with
   | Some e => ret (Some e)
   | None =>
     err <- copyUpLockedForRename newParent ;;
     match err with
     | Some e => ret (Some e)
     | None =>
       let oldName := d_name renamed in
       u <- upperOf o ;;
       oe <- overlayOf oldParent ;;
       oE <- loadEntry oe ;;
       ne <- overlayOf newParent ;;
       nE <- loadEntry ne ;;
       err <- Inode_Rename u (upper oE) oldName (upper nE) newName replacement ;;
       match err with
       | Some e => ret (Some e)
       | None =>
         re <- overlayOf renamed ;;
         rE <- loadEntry re ;;
         if lowerExists rE then
           oe <- overlayOf oldParent ;;
           ou <- upperOf oe ;;
           overlayCreateWhiteout ou oldName
         else ret None
       end
     end
   end)%ov.

End Results.

(** ** Values the overlay only passes on

    Types of package fs and of the socket layer that the overlay code takes
    from its caller and hands to a layer, or back, without looking into
    them; they are declared in other files.  Of FileFlags and of Info the
    overlay code touches the fields Write, Pread, Pwrite and Type: the
    others are kept as one opaque value. *)
Class Opaque : Type := {
  FilePermissions : Type;
  FileOwner : Type;
  TimeSpec : Type;
  BoundEndpoint : Type;
  UnstableAttr : Type;
  MountSourceFlags : Type;
  (* MountSourceFlags{} *)
  noMountSourceFlags : MountSourceFlags;
  (* a File, as the code holds it through a pointer *)
  File : Type;
  OtherFlags : Type;
  OtherInfo : Type;
  (* the fields of Info{} other than Type *)
  noOtherInfo : OtherInfo;
  (* linux.OVERLAYFS_SUPER_MAGIC *)
  OVERLAYFS_SUPER_MAGIC : Z
}.

Record FileFlags `{Opaque} : Type := mkFileFlags {
  ff_Write : bool;
  ff_Pread : bool;
  ff_Pwrite : bool;
  ff_other : OtherFlags
}.
Arguments mkFileFlags {_} _ _ _ _.

Record Info `{Opaque} : Type := mkInfo {
  info_Type : Z;
  info_other : OtherInfo
}.
Arguments mkInfo {_} _ _.

(** Info{} *)
Definition noInfo `{Opaque} : Info := mkInfo 0 noOtherInfo.

(** [&overlayFileOperations{upper: ...}] and [&overlayFileOperations{lower: ...}] *)
Record overlayFileOperations `{Opaque} : Type := mkOverlayFileOperations {
  fo_upper : option File;
  fo_lower : option File
}.
Arguments mkOverlayFileOperations {_} _ _.

(** One record per call of the operations below that leaves the overlay
    code, with what it answered; IncRef and DecRef of a MountSource are kept
    as records too. *)
Inductive Call `{Opaque} : Type :=
| CallCopyUp (d : Dirent) (err : option error)
| CallWriteOut (i : ino) (err : option error)
| CallCreateDirectory (dir : ino) (name : string) (perm : FilePermissions)
                      (err : option error)
| CallCreateLink (dir : ino) (oldname newname : string) (err : option error)
| CallCreateHardLink (dir : ino) (target : option ino) (name : string) (err : option error)
| CallCreateFifo (dir : ino) (name : string) (perm : FilePermissions) (err : option error)
| CallBind (dir : ino) (name : string) (data : BoundEndpoint) (perm : FilePermissions)
           (d : option Dirent) (err : option error)
| CallBoundEndpoint (i : ino) (path : string) (ep : BoundEndpoint)
| CallOverlayFile (i : option ino) (flags : FileFlags) (f : option File) (err : option error)
| CallNewFile (d : Dirent) (flags : FileFlags) (fops : overlayFileOperations) (f : File)
| CallUnstableAttr (i : ino) (attr : UnstableAttr) (err : option error)
| CallSetPermissions (i : ino) (f : FilePermissions) (ok : bool)
| CallSetOwner (i : ino) (owner : FileOwner) (err : option error)
| CallSetTimestamps (i : ino) (ts : TimeSpec) (err : option error)
| CallTruncate (i : ino) (size : Z) (err : option error)
| CallReadlink (i : ino) (target : string) (err : option error)
| CallGetlink (i : ino) (d : option Dirent) (err : option error)
| CallStatFS (i : ino) (info : Info) (err : option error)
| CallKeep (m : msrc) (d : Dirent) (keep : bool)
| CallResetInodeMappings (m : msrc)
| CallSaveInodeMapping (m : msrc) (i : ino) (path : string)
| CallNewMountSource (ops : overlayMountSourceOperations) (name : string)
                     (flags : MountSourceFlags) (m : msrc)
| CallNewRevalidatingMountSource (flags : MountSourceFlags) (m : msrc)
| CallNewNonCachingMountSource (flags : MountSourceFlags) (m : msrc)
| CallMountIncRef (m : msrc)
| CallMountDecRef (m : msrc).

(** A step of a run: an event of the code above or one of these calls, in
    the order they happen. *)
Definition Step `{Opaque} : Type := Event + Call.

Record Run (F : Type) `{Opaque} : Type := mkRun {
  now : World F;
  trace : list Step
}.
Arguments mkRun {F _} _ _.
Arguments now {F _} _.
Arguments trace {F _} _.

Definition Op (F : Type) `{Opaque} (A : Type) : Type := Run F -> Outcome (Run F) A.

Definition opRet {F} `{Opaque} {A} (a : A) : Op F A := fun r => Done a r.
Definition opBind {F} `{Opaque} {A B} (m : Op F A) (k : A -> Op F B) : Op F B :=
  fun r => match m r with
           | Done a r' => k a r'
           | Panicked msg => Panicked msg
           end.

Declare Scope op_scope.
Delimit Scope op_scope with op.
Notation "x <- m ;; k" := (opBind m (fun x => k))
  (at level 20, m at level 99, k at level 200, only parsing) : op_scope.
Notation "m ;;; k" := (opBind m (fun _ => k))
  (at level 100, k at level 200, only parsing, right associativity) : op_scope.
Notation "' pat <- m ;; k" := (opBind m (fun x => match x with pat => k end))
  (at level 20, pat pattern, m at level 99, k at level 200, only parsing) : op_scope.

(** The code modelled above, run as part of a longer run: its events are
    appended to the trace in their order. *)
Definition lift {F} `{Opaque} {A} (m : M F A) : Op F A :=
  fun r => match m {| world := now r; log := [] |} with
           | Done a st =>
             Done a {| now := world st; trace := trace r ++ map inl (log st) |}
           | Panicked msg => Panicked msg
           end.

(** A call out of the overlay code, and a change of a reference count. *)
Definition call {F} `{Opaque} {X} (op : World F -> X * World F) (c : X -> Call) : Op F X :=
  fun r => let '(x, w) := op (now r) in
           Done x {| now := w; trace := trace r ++ [inr (c x)] |}.

Definition note {F} `{Opaque} (c : Call) : Op F unit :=
  fun r => Done tt {| now := now r; trace := trace r ++ [inr c] |}.

Definition getNow {F} `{Opaque} : Op F (World F) := fun r => Done (now r) r.

(** [&overlayEntry{...}]: a new entry, as the literal gives it. *)
Definition allocEntry {F} `{Opaque} (e : overlayEntry) : Op F eid :=
  fun r => Done (freshEntry (now r))
                {| now := withEntry e (now r); trace := trace r |}.

(** The capabilities of a backing layer, of its files and of the mounts
    that the operations below use, and functions of package fs declared in
    other files: copyUp (copy_up.go), overlayFile (file_overlay.go), NewFile
    and File.Flags (file.go), the constructors and methods of MountSource
    (mount.go).  They are parameters. *)
Class LayerOperations (F : Type) `{Opaque} : Type := {
  op_WriteOut : ino -> World F -> option error * World F;
  op_CreateDirectory : ino -> string -> FilePermissions -> World F -> option error * World F;
  op_CreateLink : ino -> string -> string -> World F -> option error * World F;
  op_CreateHardLink : ino -> option ino -> string -> World F -> option error * World F;
  op_CreateFifo : ino -> string -> FilePermissions -> World F -> option error * World F;
  op_Bind : ino -> string -> BoundEndpoint -> FilePermissions -> World F ->
            (option Dirent * option error) * World F;
  op_BoundEndpoint : ino -> string -> World F -> BoundEndpoint * World F;
  op_UnstableAttr : ino -> World F -> (UnstableAttr * option error) * World F;
  op_SetPermissions : ino -> FilePermissions -> World F -> bool * World F;
  op_SetOwner : ino -> FileOwner -> World F -> option error * World F;
  op_SetTimestamps : ino -> TimeSpec -> World F -> option error * World F;
  op_Truncate : ino -> Z -> World F -> option error * World F;
  op_Readlink : ino -> World F -> (string * option error) * World F;
  op_Getlink : ino -> World F -> (option Dirent * option error) * World F;
  op_StatFS : ino -> World F -> (Info * option error) * World F;
  op_copyUp : Dirent -> World F -> option error * World F;
  op_overlayFile : option ino -> FileFlags -> World F ->
                   (option File * option error) * World F;
  op_Flags : File -> World F -> FileFlags;
  op_NewFile : Dirent -> FileFlags -> overlayFileOperations -> World F -> File * World F;
  op_Keep : msrc -> Dirent -> World F -> bool * World F;
  op_ResetInodeMappings : msrc -> World F -> unit * World F;
  op_SaveInodeMapping : msrc -> ino -> string -> World F -> unit * World F;
  op_NewMountSource : overlayMountSourceOperations -> string -> MountSourceFlags ->
                      World F -> msrc * World F;
  op_NewRevalidatingMountSource : MountSourceFlags -> World F -> msrc * World F;
  op_NewNonCachingMountSource : MountSourceFlags -> World F -> msrc * World F
}.

Section Operations.
Context {F : Type} `{!Opaque}
  `{!InodeOperations F, !MountSourceOperations F, !OverlayDeps F, !LayerOperations F}.

#[local] Abbreviation Op := (Op F).
Local Open Scope op_scope.

Definition opDeref {A} (p : option A) : Op A := lift (deref p).

(** [copyUp(ctx, d)], which takes the rename lock itself. *)
Definition copyUp (d : Dirent) : Op (option error) :=
  call (op_copyUp d) (CallCopyUp d).

(** func overlayWriteOut(ctx, o *overlayEntry) error *)
Definition overlayWriteOut (o : eid) : Op (option error) :=
  e <- lift (RLock o) ;;
  match upper e with
  | Some u => call (op_WriteOut u) (CallWriteOut u)
  | None => opRet None
  end.

(** ** Creation *)

(** func overlayCreateDirectory(ctx, o *overlayEntry, parent *Dirent, name string,
      perm FilePermissions) error *)
Definition overlayCreateDirectory (o : eid) (parent : Dirent) (name : string)
    (perm : FilePermissions) : Op (option error) :=
  err <- lift (copyUpLockedForRename parent) ;;
  match err with
  | Some e => opRet (Some e)
  | None =>
    u <- lift (upperOf o) ;;
    call (op_CreateDirectory u name perm) (CallCreateDirectory u name perm)
  end.

(** func overlayCreateLink(ctx, o *overlayEntry, parent *Dirent, oldname string,
      newname string) error *)
Definition overlayCreateLink (o : eid) (parent : Dirent) (oldname newname : string)
    : Op (option error) :=
  err <- lift (copyUpLockedForRename parent) ;;
  match err with
  | Some e => opRet (Some e)
  | None =>
    u <- lift (upperOf o) ;;
    call (op_CreateLink u oldname newname) (CallCreateLink u oldname newname)
  end.

(** func overlayCreateHardLink(ctx, o *overlayEntry, parent *Dirent, target *Dirent,
      name string) error *)
Definition overlayCreateHardLink (o : eid) (parent target : Dirent) (name : string)
    : Op (option error) :=
  err <- lift (copyUpLockedForRename parent) ;;
  match err with
  | Some e => opRet (Some e)
  | None =>
    err <- lift (copyUpLockedForRename target) ;;
    match err with
    | Some e => opRet (Some e)
    | None =>
      u <- lift (upperOf o) ;;
      te <- lift (overlayOf target) ;;
      tE <- lift (loadEntry te) ;;
      call (op_CreateHardLink u (upper tE) name) (CallCreateHardLink u (upper tE) name)
    end
  end.

(** func overlayCreateFifo(ctx, o *overlayEntry, parent *Dirent, name string,
      perm FilePermissions) error *)
Definition overlayCreateFifo (o : eid) (parent : Dirent) (name : string)
    (perm : FilePermissions) : Op (option error) :=
  err <- lift (copyUpLockedForRename parent) ;;
  match err with
  | Some e => opRet (Some e)
  | None =>
    u <- lift (upperOf o) ;;
    call (op_CreateFifo u name perm) (CallCreateFifo u name perm)
  end.

(** ** Sockets *)

(** func overlayBind(ctx, o *overlayEntry, name string, data transport.BoundEndpoint,
      perm FilePermissions), returning *Dirent and error *)
Definition overlayBind (o : eid) (name : string) (data : BoundEndpoint)
    (perm : FilePermissions) : Op (option Dirent * option error) :=
  e <- lift (RLock o) ;;
  match upper e with
  | None => opRet (None, Some EOPNOTSUPP)
  | Some u =>
    '(d, err) <- call (op_Bind u name data perm)
                      (fun r => CallBind u name data perm (fst r) (snd r)) ;;
    match err with
    | Some x => opRet (None, Some x)
    | None =>
      (* Grab the inode and drop the dirent, we don't need it. *)
      d <- opDeref d ;;
      inode <- opDeref (d_Inode d) ;;
      lift (IncRef inode) ;;;
      lift (Dirent_DecRef d) ;;;
      (* Create a new overlay entry and dirent for the socket. *)
      '(entry, err) <- lift (newOverlayEntry (Some inode) None false) ;;
      match err with
      | Some x =>
        lift (DecRef inode) ;;;
        opRet (None, Some x)
      | None =>
        entry <- opDeref entry ;;
        n <- lift (loadInode inode) ;;
        oi <- lift (newOverlayInode entry (i_MountSource n)) ;;
        opRet (Some (NewDirent oi name), None)
      end
    end
  end.

(** func overlayBoundEndpoint(o *overlayEntry, path string) transport.BoundEndpoint

    The function calls itself on the entry of a lower Inode that is an
    overlay Inode; [fuel] bounds the depth of these calls, and the result is
    None when it is spent. *)
Fixpoint overlayBoundEndpoint (fuel : nat) (o : eid) (path : string)
    : Op (option BoundEndpoint) :=
  match fuel with
  | 0 => opRet None
  | S fuel =>
    e <- lift (RLock o) ;;
    match upper e with
    | Some u =>
      ep <- call (op_BoundEndpoint u path) (CallBoundEndpoint u path) ;;
      opRet (Some ep)
    | None =>
      l <- opDeref (lower e) ;;
      ln <- lift (loadInode l) ;;
      match i_overlay ln with
      | Some lo =>
        (* If the lower is itself an overlay, recurse. *)
        overlayBoundEndpoint fuel lo path
      | None =>
        (* Lower is not an overlay. Call BoundEndpoint directly. *)
        ep <- call (op_BoundEndpoint l path) (CallBoundEndpoint l path) ;;
        opRet (Some ep)
      end
    end
  end.

(** ** Files *)

(** func overlayGetFile(ctx, o *overlayEntry, d *Dirent, flags FileFlags),
      returning *File and error

    Of the log lines one is kept for what it reads: before the lower file
    is opened the code reads [o.lower.MountSource.name], which panics on an
    entry that has no lower Inode either. *)
Definition overlayGetFile (o : eid) (d : Dirent) (flags : FileFlags)
    : Op (option File * option error) :=
  err <- (if ff_Write flags then copyUp d else opRet None) ;;
  match err with
  | Some x => opRet (None, Some x)
  | None =>
    e <- lift (RLock o) ;;
    match upper e with
    | Some u =>
      '(upperFile, err) <- call (op_overlayFile (Some u) flags)
                                (fun r => CallOverlayFile (Some u) flags (fst r) (snd r)) ;;
      match err with
      | Some x => opRet (None, Some x)
      | None =>
        uf <- opDeref upperFile ;;
        w <- getNow ;;
        let flags := mkFileFlags (ff_Write flags) (ff_Pread (op_Flags uf w))
                                 (ff_Pwrite (op_Flags uf w)) (ff_other flags) in
        let fops := mkOverlayFileOperations upperFile None in
        f <- call (op_NewFile d flags fops) (CallNewFile d flags fops) ;;
        opRet (Some f, None)
      end
    | None =>
      (* the log line here reads o.lower.MountSource.name *)
      l <- opDeref (lower e) ;;
      '(lowerFile, err) <- call (op_overlayFile (Some l) flags)
                                (fun r => CallOverlayFile (Some l) flags (fst r) (snd r)) ;;
      match err with
      | Some x => opRet (None, Some x)
      | None =>
        lf <- opDeref lowerFile ;;
        w <- getNow ;;
        let flags := mkFileFlags (ff_Write flags) (ff_Pread (op_Flags lf w))
                                 (ff_Pwrite (op_Flags lf w)) (ff_other flags) in
        let fops := mkOverlayFileOperations None lowerFile in
        f <- call (op_NewFile d flags fops) (CallNewFile d flags fops) ;;
        opRet (Some f, None)
      end
    end
  end.

(** ** Attributes *)

(** func overlayUnstableAttr(ctx, o *overlayEntry) (UnstableAttr, error) *)
Definition overlayUnstableAttr (o : eid) : Op (UnstableAttr * option error) :=
  e <- lift (RLock o) ;;
  match upper e with
  | Some u => call (op_UnstableAttr u) (fun r => CallUnstableAttr u (fst r) (snd r))
  | None =>
    l <- opDeref (lower e) ;;
    call (op_UnstableAttr l) (fun r => CallUnstableAttr l (fst r) (snd r))
  end.

(** func overlaySetPermissions(ctx, o *overlayEntry, d *Dirent, f FilePermissions) bool *)
Definition overlaySetPermissions (o : eid) (d : Dirent) (f : FilePermissions) : Op bool :=
  err <- copyUp d ;;
  match err with
  | Some _ => opRet false
  | None =>
    u <- lift (upperOf o) ;;
    call (op_SetPermissions u f) (CallSetPermissions u f)
  end.

(** func overlaySetOwner(ctx, o *overlayEntry, d *Dirent, owner FileOwner) error *)
Definition overlaySetOwner (o : eid) (d : Dirent) (owner : FileOwner) : Op (option error) :=
  err <- copyUp d ;;
  match err with
  | Some e => opRet (Some e)
  | None =>
    u <- lift (upperOf o) ;;
    call (op_SetOwner u owner) (CallSetOwner u owner)
  end.

(** func overlaySetTimestamps(ctx, o *overlayEntry, d *Dirent, ts TimeSpec) error *)
Definition overlaySetTimestamps (o : eid) (d : Dirent) (ts : TimeSpec) : Op (option error) :=
  err <- copyUp d ;;
  match err with
  | Some e => opRet (Some e)
  | None =>
    u <- lift (upperOf o) ;;
    call (op_SetTimestamps u ts) (CallSetTimestamps u ts)
  end.

(** func overlayTruncate(ctx, o *overlayEntry, d *Dirent, size int64) error *)
Definition overlayTruncate (o : eid) (d : Dirent) (size : Z) : Op (option error) :=
  err <- copyUp d ;;
  match err with
  | Some e => opRet (Some e)
  | None =>
    u <- lift (upperOf o) ;;
    call (op_Truncate u size) (CallTruncate u size)
  end.

(** func overlayReadlink(ctx, o *overlayEntry) (string, error) *)
Definition overlayReadlink (o : eid) : Op (string * option error) :=
  e <- lift (RLock o) ;;
  match upper e with
  | Some u => call (op_Readlink u) (fun r => CallReadlink u (fst r) (snd r))
  | None =>
    l <- opDeref (lower e) ;;
    call (op_Readlink l) (fun r => CallReadlink l (fst r) (snd r))
  end.

(** func overlayGetlink(ctx, o *overlayEntry), returning *Dirent and error

    [dirent.FullName(nil)] only feeds the log line and is left out. *)
Definition overlayGetlink (o : eid) : Op (option Dirent * option error) :=
  e <- lift (RLock o) ;;
  '(dirent, err) <- match upper e with
                    | Some u => call (op_Getlink u) (fun r => CallGetlink u (fst r) (snd r))
                    | None =>
                      l <- opDeref (lower e) ;;
                      call (op_Getlink l) (fun r => CallGetlink l (fst r) (snd r))
                    end ;;
  match dirent with
  | Some d =>
    lift (Dirent_DecRef d) ;;;
    (* Claim that the path is not accessible. *)
    opRet (None, Some EACCES)
  | None => opRet (None, err)
  end.

(** func overlayStatFS(ctx, o *overlayEntry) (Info, error) *)
Definition overlayStatFS (o : eid) : Op (Info * option error) :=
  e <- lift (RLock o) ;;
  '(i, err) <- match upper e with
               | Some u => call (op_StatFS u) (fun r => CallStatFS u (fst r) (snd r))
               | None =>
                 l <- opDeref (lower e) ;;
                 call (op_StatFS l) (fun r => CallStatFS l (fst r) (snd r))
               end ;;
  match err with
  | Some x => opRet (noInfo, Some x)
  | None => opRet (mkInfo OVERLAYFS_SUPER_MAGIC (info_other i), None)
  end.

(** ** The overlay mount, continued *)

(** func newOverlayMountSource(upper, lower *MountSource, flags MountSourceFlags)
      *MountSource *)
Definition newOverlayMountSource (upperM lowerM : msrc) (flags : MountSourceFlags)
    : Op msrc :=
  note (CallMountIncRef upperM) ;;;
  note (CallMountIncRef lowerM) ;;;
  let ops := mkOverlayMount upperM lowerM in
  call (op_NewMountSource ops "overlay-mount" flags)
       (CallNewMountSource ops "overlay-mount" flags).

(** func (o *overlayMountSourceOperations) Keep(dirent *Dirent) bool *)
Definition Keep (o : overlayMountSourceOperations) (dirent : Dirent) : Op bool :=
  call (op_Keep (ms_upper o) dirent) (CallKeep (ms_upper o) dirent).

(** func (o *overlayMountSourceOperations) ResetInodeMappings() *)
Definition ResetInodeMappings (o : overlayMountSourceOperations) : Op unit :=
  call (op_ResetInodeMappings (ms_upper o)) (fun _ => CallResetInodeMappings (ms_upper o)) ;;;
  call (op_ResetInodeMappings (ms_lower o)) (fun _ => CallResetInodeMappings (ms_lower o)).

(** func (o *overlayMountSourceOperations) SaveInodeMapping(inode *Inode, path string) *)
Definition SaveInodeMapping (o : overlayMountSourceOperations) (inode : ino)
    (path : string) : Op unit :=
  n <- lift (loadInode inode) ;;
  en <- opDeref (i_overlay n) ;;
  e <- lift (RLock en) ;;
  match upper e with
  | Some u =>
    call (op_SaveInodeMapping (ms_upper o) u path)
         (fun _ => CallSaveInodeMapping (ms_upper o) u path)
  | None => opRet tt
  end ;;;
  match lower e with
  | Some l =>
    call (op_SaveInodeMapping (ms_lower o) l path)
         (fun _ => CallSaveInodeMapping (ms_lower o) l path)
  | None => opRet tt
  end.

(** func (o *overlayMountSourceOperations) Destroy() *)
Definition Destroy (o : overlayMountSourceOperations) : Op unit :=
  note (CallMountDecRef (ms_upper o)) ;;;
  note (CallMountDecRef (ms_lower o)).

(** ** Helpers for tests *)

(** func NewTestOverlayDir(ctx, upper, lower *Inode, revalidate bool) *Inode *)
Definition NewTestOverlayDir (upperI lowerI : option ino) (revalidate : bool) : Op ino :=
  upperMsrc <- (if revalidate
                then call (op_NewRevalidatingMountSource noMountSourceFlags)
                          (CallNewRevalidatingMountSource noMountSourceFlags)
                else call (op_NewNonCachingMountSource noMountSourceFlags)
                          (CallNewNonCachingMountSource noMountSourceFlags)) ;;
  lowerMsrc <- call (op_NewNonCachingMountSource noMountSourceFlags)
                    (CallNewNonCachingMountSource noMountSourceFlags) ;;
  let ops := mkOverlayMount upperMsrc lowerMsrc in
  m <- call (op_NewMountSource ops "" noMountSourceFlags)
            (CallNewMountSource ops "" noMountSourceFlags) ;;
  overlay <- allocEntry (mkOverlayEntry false lowerI upperI) ;;
  lift (newOverlayInode overlay m).

(** func (i *Inode) TestHasUpperFS() bool *)
Definition TestHasUpperFS (i : ino) : Op bool :=
  n <- lift (loadInode i) ;;
  match i_overlay n with
  | None => opRet false
  | Some en =>
    e <- lift (loadEntry en) ;;
    opRet (bool_decide (upper e <> None))
  end.

(** func (i *Inode) TestHasLowerFS() bool *)
Definition TestHasLowerFS (i : ino) : Op bool :=
  n <- lift (loadInode i) ;;
  match i_overlay n with
  | None => opRet false
  | Some en =>
    e <- lift (loadEntry en) ;;
    opRet (bool_decide (lower e <> None))
  end.

End Operations.

(** ** Vocabulary for the operations above *)

(** The references on a MountSource that a trace takes and drops. *)
Fixpoint mountTaken `{Opaque} (m : msrc) (steps : list Step) : nat :=
  match steps with
  | [] => 0
  | inr (CallMountIncRef x) :: rest =>
    (if bool_decide (x = m) then 1 else 0) + mountTaken m rest
  | _ :: rest => mountTaken m rest
  end.

Fixpoint mountDropped `{Opaque} (m : msrc) (steps : list Step) : nat :=
  match steps with
  | [] => 0
  | inr (CallMountDecRef x) :: rest =>
    (if bool_decide (x = m) then 1 else 0) + mountDropped m rest
  | _ :: rest => mountDropped m rest
  end.

(** [serves w o n i]: in the world [w] the Inode [i] is the one behind the
    entry [o], under [n] overlays stacked as lower layers: the upper Inode
    of the first entry on the way down that has one, or the lower Inode of
    the first that is not an overlay Inode. *)
Inductive serves {F : Type} (w : World F) : eid -> nat -> ino -> Prop :=
| serves_upper o u :
    upper (entries w !!! o) = Some u ->
    serves w o 0 u
| serves_lower o l :
    upper (entries w !!! o) = None ->
    lower (entries w !!! o) = Some l ->
    i_overlay (inodes w !!! l) = None ->
    serves w o 0 l
| serves_nested o l lo n i :
    upper (entries w !!! o) = None ->
    lower (entries w !!! o) = Some l ->
    i_overlay (inodes w !!! l) = Some lo ->
    serves w lo n i ->
    serves w o (S n) i.

(** ** The in-memory layer, continued

    The rest of the capabilities, for the layer of [MemFS]: permissions are
    masks, owners, times, endpoints and files are numbers; the endpoint
    bound at an inode is its number, and the file opened on it too. *)
Module MemOps.

Global Instance opaque : Opaque := {|
  FilePermissions := PermMask;
  FileOwner := nat;
  TimeSpec := nat;
  BoundEndpoint := nat;
  UnstableAttr := nat;
  MountSourceFlags := unit;
  noMountSourceFlags := tt;
  File := nat;
  OtherFlags := bool;
  OtherInfo := nat;
  noOtherInfo := 0;
  OVERLAYFS_SUPER_MAGIC := 0x794c7630
|}.

(** Numbers and masks as the values they stand for. *)
Definition perms (p : PermMask) : FilePermissions := p.
Definition owner (n : nat) : FileOwner := n.
Definition time (n : nat) : TimeSpec := n.
Definition endpoint (n : nat) : BoundEndpoint := n.
Definition attr (n : nat) : UnstableAttr := n.
Definition file (n : nat) : File := n.
Definition flags (write pread pwrite read : bool) : FileFlags :=
  mkFileFlags write pread pwrite read.
Definition info (type : Z) (files : nat) : Info := mkInfo type files.

Definition accept {X} (x : X) (w : World MemFS.t) : X * World MemFS.t := (x, w).

(** A socket bound in a directory is the spare inode 6 of the upper layer. *)
Definition Bind (dir : ino) (name : string) (data : nat) (perm : PermMask)
    (w : World MemFS.t) : (option Dirent * option error) * World MemFS.t :=
  if pWrite (MemFS.mode (MemFS.node w dir))
  then ((Some (NewDirent 6 name), None), w)
  else ((None, Some EACCES), w).

(** Every inode resolves as a link to itself. *)
Definition Getlink (i : ino) (w : World MemFS.t)
    : (option Dirent * option error) * World MemFS.t :=
  ((Some (NewDirent i "self"), None), w).

Definition StatFS (i : ino) (w : World MemFS.t) : (Info * option error) * World MemFS.t :=
  if bool_decide (i ∈ dom (MemFS.nodes (fs w)))
  then ((mkInfo 0xef53 (size (MemFS.nodes (fs w))), None), w)
  else ((mkInfo 0xef53 0, Some ENOENT), w).

Definition overlayFile (i : option ino) (flags : FileFlags) (w : World MemFS.t)
    : (option nat * option error) * World MemFS.t :=
  match i with
  | Some x => ((Some x, None), w)
  | None => ((None, Some EINVAL), w)
  end.

(** A file of this layer allows positioned reads, and positioned writes
    where its inode is writable. *)
Definition Flags (f : nat) (w : World MemFS.t) : FileFlags :=
  mkFileFlags false true (pWrite (MemFS.mode (MemFS.node w f))) false.

Definition NewFile (d : Dirent) (flags : FileFlags) (fops : overlayFileOperations)
    (w : World MemFS.t) : nat * World MemFS.t :=
  (100 + default 0 (d_Inode d), w).

Global Instance layerOperations : LayerOperations MemFS.t := {|
  op_WriteOut := fun _ => accept None;
  op_CreateDirectory := fun _ _ _ => accept None;
  op_CreateLink := fun _ _ _ => accept None;
  op_CreateHardLink := fun _ target _ =>
    accept (match target with Some _ => None | None => Some EINVAL end);
  op_CreateFifo := fun _ _ _ => accept None;
  op_Bind := Bind;
  op_BoundEndpoint := fun i _ => accept i;
  op_UnstableAttr := fun i => accept (i, None);
  op_SetPermissions := fun _ _ => accept true;
  op_SetOwner := fun _ _ => accept None;
  op_SetTimestamps := fun _ _ => accept None;
  op_Truncate := fun _ _ => accept None;
  op_Readlink := fun _ => accept ("", Some EINVAL);
  op_Getlink := Getlink;
  op_StatFS := StatFS;
  op_copyUp := MemFS.copyUp;
  op_overlayFile := overlayFile;
  op_Flags := Flags;
  op_NewFile := NewFile;
  op_Keep := fun _ _ => accept true;
  op_ResetInodeMappings := fun _ => accept tt;
  op_SaveInodeMapping := fun _ _ _ => accept tt;
  op_NewMountSource := fun _ _ _ => accept 20;
  op_NewRevalidatingMountSource := fun _ => accept 21;
  op_NewNonCachingMountSource := fun _ => accept 22
|}.

(** The tree of [MemFS.tree], and above it two more overlays, each with the
    overlay below as its lower layer and no upper layer:
    inode 13 with entry 3 (lower: the overlay inode 10),
    inode 14 with entry 4 (lower: the overlay inode 13). *)
Definition nested : World MemFS.t :=
  let w := MemFS.tree ∅ ∅ ∅ ∅ in
  {| inodes := <[13 := mkInode (MemFS.dirAttr 2) (Some 3) 0]>
                 (<[14 := mkInode (MemFS.dirAttr 2) (Some 4) 0]> (inodes w));
     entries := <[3 := mkOverlayEntry true (Some 10) None]>
                  (<[4 := mkOverlayEntry true (Some 13) None]> (entries w));
     fs := fs w |}.

(** A tree in use:
    upper layer:  inode 1 = "/", with "x" (inode 6) and "n" (inode 7)
    lower layer:  inode 2 = "/", with "x" (inode 3), "z" (inode 8) and
                  "d" (directory, inode 4) holding "f" (inode 5)
    overlay:      inode 10 = "/" with entry 0 (upper 1, lower 2),
                  inode 11 = "x" with entry 1 (upper 6, lower 3): copied up,
                  inode 15 = "n" with entry 5 (upper 7 only): made in the
                  overlay *)
Definition busy : World MemFS.t :=
  {| inodes := {[ 1 := mkInode (MemFS.dirAttr 1) None 1;
                  2 := mkInode (MemFS.dirAttr 2) None 2;
                  3 := mkInode (MemFS.fileAttr 3) None 2;
                  4 := mkInode (MemFS.dirAttr 4) None 2;
                  5 := mkInode (MemFS.fileAttr 5) None 2;
                  6 := mkInode (MemFS.fileAttr 3) None 1;
                  7 := mkInode (MemFS.fileAttr 7) None 1;
                  8 := mkInode (MemFS.fileAttr 8) None 2;
                  10 := mkInode (MemFS.dirAttr 2) (Some 0) 0;
                  11 := mkInode (MemFS.fileAttr 3) (Some 1) 0;
                  15 := mkInode (MemFS.fileAttr 7) (Some 5) 0 ]};
     entries := {[ 0 := mkOverlayEntry true (Some 2) (Some 1);
                   1 := mkOverlayEntry true (Some 3) (Some 6);
                   5 := mkOverlayEntry false None (Some 7) ]};
     fs := {| MemFS.nodes :=
                {[ 1 := MemFS.mkNode {[ "x" := 6; "n" := 7 ]} ∅ MemFS.rwx;
                   2 := MemFS.mkNode {[ "x" := 3; "z" := 8; "d" := 4 ]} ∅ MemFS.rx;
                   3 := MemFS.mkNode ∅ ∅ MemFS.rx;
                   4 := MemFS.mkNode {[ "f" := 5 ]} ∅ MemFS.rx;
                   5 := MemFS.mkNode ∅ ∅ MemFS.rx;
                   6 := MemFS.mkNode ∅ ∅ MemFS.rwx;
                   7 := MemFS.mkNode ∅ ∅ MemFS.rwx;
                   8 := MemFS.mkNode ∅ ∅ MemFS.rx ]};
              MemFS.negative := ∅;
              MemFS.revalidating := ∅ |} |}.

Definition start (w : World MemFS.t) : Run MemFS.t := {| now := w; trace := [] |}.

End MemOps.

(** ** A layer that refuses

    A layer with no state of its own in which the directory 1 resolves
    every name to the inode 6 and every other directory refuses to be
    searched; it stores no attribute and changes nothing. *)
Module Sealed.

Definition Lookup (dir : ino) (name : string) (w : World unit)
    : (option Dirent * option error) * World unit :=
  if bool_decide (dir = 1)
  then ((Some (NewDirent 6 name), None), w)
  else ((None, Some EACCES), w).

Definition inodeOperations : InodeOperations unit := {|
  op_Lookup := Lookup;
  op_Getxattr := fun _ _ w => (("", Some ENODATA), w);
  op_Setxattr := fun _ _ _ w => (Some EACCES, w);
  op_Listxattr := fun _ w => ((∅, None), w);
  op_Remove := fun _ _ w => (Some EACCES, w);
  op_RemoveDirectory := fun _ _ w => (Some EACCES, w);
  op_Rename := fun _ _ _ _ _ _ w => (Some EACCES, w);
  op_check := fun _ _ w => (None, w)
|}.

Definition mountSourceOperations : MountSourceOperations unit := {|
  op_Revalidate := fun _ _ _ _ w => (false, w)
|}.

Definition overlayDeps : OverlayDeps unit := {|
  XattrOverlayPrefix := "trusted.overlay.";
  XattrOverlayWhiteout := fun name => "trusted.overlay.whiteout." +:+ name;
  op_copyUpLockedForRename := fun _ w => (Some EACCES, w);
  op_readdirOne := fun _ w => ((∅, Some EACCES), w);
  newOverlayEntry_check := fun _ _ _ _ => None
|}.

(** The directory 1 above the directory 2 (entry 0), and the other way
    round (entry 1). *)
Definition heap : World unit :=
  {| inodes := {[ 1 := mkInode (MemFS.dirAttr 1) None 1;
                  2 := mkInode (MemFS.dirAttr 2) None 2;
                  6 := mkInode (MemFS.fileAttr 6) None 1;
                  10 := mkInode (MemFS.dirAttr 2) (Some 0) 0;
                  20 := mkInode (MemFS.dirAttr 1) (Some 1) 0 ]};
     entries := {[ 0 := mkOverlayEntry true (Some 2) (Some 1);
                   1 := mkOverlayEntry true (Some 1) (Some 2) ]};
     fs := tt |}.

Definition start : State unit := mkState heap [].

End Sealed.
(** * Properties *)

(** ** Tactics: running the monad *)

Ltac munfold :=
  unfold bind, ret, panic, extern, emit, getWorld, putWorld, loadInode, loadEntry, RLock,
       deref, nilDeref,
       Inode_Lookup, Inode_Getxattr, Inode_Setxattr, Inode_Listxattr, Inode_Remove,
       Inode_RemoveDirectory, Inode_Rename, Inode_check, MountSource_Revalidate,
       copyUpLockedForRename, readdirOne, IncRef, DecRef, Dirent_DecRef,
       overlayOf, upperOf, overlayIsNil, setStableAttr,
       overlayHasWhiteout, overlayCreateWhiteout in *.

Ltac mred :=
  munfold;
  cbn [world log fst snd d_Inode d_name upper lower lowerExists
       i_StableAttr i_overlay i_MountSource] in *.

(** An answer of a collaborator that a hypothesis fixes. *)
Ltac use_eqn :=
  match goal with
  | H : ?l = _ |- context [?l] => rewrite H
  end.

Ltac decide_closed :=
  match goal with
  | |- context [bool_decide ?P] =>
    first [ rewrite (bool_decide_eq_true_2 P) by (reflexivity || congruence)
          | rewrite (bool_decide_eq_false_2 P) by congruence ]
  end.

Ltac bred := cbn [andb orb negb].

Ltac run := repeat first [ progress mred | use_eqn | decide_closed | progress bred ].

(** Every answer a collaborator can give, one case each. *)
Ltac crunch :=
  repeat first
    [ progress run
    | match goal with
      | |- context [op_Lookup ?a ?b ?c] =>
        destruct (op_Lookup a b c) as [[[[[?|] ?]|] ?] ?] eqn:?
      | |- context [op_Getxattr ?a ?b ?c] =>
        destruct (op_Getxattr a b c) as [[? ?] ?] eqn:?
      | |- context [unhandled ?e] => destruct (unhandled e) eqn:?
      | |- context [newOverlayEntry_check ?a ?b ?c ?d] =>
        destruct (newOverlayEntry_check a b c d) eqn:?
      | |- context [bool_decide ?P] => destruct (bool_decide P) eqn:?
      | |- context [IsDir ?a] => destruct (IsDir a) eqn:?
      end ].

(** A general statement taken at a concrete input: both sides are evaluated
    and must coincide. *)
Ltac at_instance H := generalize H; vm_compute; exact (fun x => x).

(** A fact about a concrete tree, by evaluation. *)
Ltac calc := vm_compute; reflexivity.

(** ** Strings *)

Lemma prefix_antisym (a b : string) :
  String.prefix a b = true -> String.prefix b a = true -> a = b.
Proof.
  revert b; induction a as [|x a IH]; intros [|y b]; simpl; try congruence.
  destruct (ascii_dec x y) as [->|]; [|congruence].
  destruct (ascii_dec y y); [|congruence].
  intros H1 H2. f_equal. apply IH; assumption.
Qed.

Lemma HasPrefix_both (s p : string) :
  HasPrefix s p = true -> HasPrefix p s = true -> s = p.
Proof. unfold HasPrefix. intros H1 H2. apply prefix_antisym; assumption. Qed.

(** ** The heap *)

Section Heap.
Context {F : Type}.

Lemma entries_withEntry (e : overlayEntry) (w : World F) :
  entries (withEntry e w) !!! freshEntry w = e.
Proof. unfold withEntry; simpl. apply lookup_total_insert_eq. Qed.

Lemma inodes_withInode (n : Inode) (w : World F) :
  inodes (withInode n w) !!! freshInode w = n.
Proof. unfold withInode; simpl. apply lookup_total_insert_eq. Qed.

Lemma entries_withInode (n : Inode) (w : World F) :
  entries (withInode n w) = entries w.
Proof. reflexivity. Qed.

(** The attributes written to an Inode stay when an entry and an Inode are
    allocated afterwards: a new Inode never takes the place of one in
    use. *)
Lemma stolen_attr_kept (ui : ino) (a : StableAttr) (e : overlayEntry) (n : Inode)
    (w : World F) :
  i_StableAttr (inodes (withInode n (withEntry e (withStableAttr ui a w))) !!! ui) = a.
Proof.
  unfold withInode, withEntry, withStableAttr, freshInode; cbn [inodes entries fs].
  rewrite lookup_total_insert_ne.
  - rewrite lookup_total_insert_eq. reflexivity.
  - intros Heq.
    apply (is_fresh (dom (<[ui := mkInode a (i_overlay (inodes w !!! ui))
                                     (i_MountSource (inodes w !!! ui))]> (inodes w)))).
    rewrite Heq. apply elem_of_dom. rewrite lookup_insert_eq. eexists; reflexivity.
Qed.
End Heap.

(** ** Extended attributes *)

Section ExtendedAttributes.
Context {F : Type} `{!InodeOperations F, !MountSourceOperations F, !OverlayDeps F}.

(** What the guard of overlayGetxattr does: it answers ENODATA, without a
    call to either layer, for the names that are a prefix of the reserved
    prefix. *)
Lemma overlayGetxattr_guard (o : eid) (name : string) (st : State F) :
  HasPrefix XattrOverlayPrefix name = true ->
  overlayGetxattr o name st = Done ("", Some ENODATA) st.
Proof. intros H. unfold overlayGetxattr. rewrite H. reflexivity. Qed.

Lemma reserved_name_passes_guard (name : string) :
  HasPrefix name XattrOverlayPrefix = true ->
  name <> XattrOverlayPrefix ->
  HasPrefix XattrOverlayPrefix name = false.
Proof.
  intros Hres Hne. destruct (HasPrefix XattrOverlayPrefix name) eqn:E; [|reflexivity].
  exfalso. apply Hne. apply HasPrefix_both; assumption.
Qed.

(** C1 (the code departs from it).  A name in the reserved namespace other
    than the bare prefix passes the guard of overlayGetxattr, whose
    arguments to HasPrefix are exchanged: the value stored in the layer
    that services the call is handed to the caller, and overlayListxattr
    keeps such a name in its result. *)
Theorem overlayGetxattr_forwards_reserved
    (o : eid) (name : string) (st : State F) (i : ino)
    (buf : string) (err : option error) (w1 : World F)
    (names : gset string) (lerr : option error) (w2 : World F) :
  HasPrefix name XattrOverlayPrefix = true ->
  name <> XattrOverlayPrefix ->
  (let e := entries (world st) !!! o in
   upper e = Some i \/ (upper e = None /\ lower e = Some i)) ->
  op_Getxattr i name (world st) = ((buf, err), w1) ->
  op_Listxattr i (world st) = ((names, lerr), w2) ->
  name ∈ names ->
  overlayGetxattr o name st
    = Done (buf, err) {| world := w1; log := log st ++ [EvGetxattr i name buf err] |}
  /\ exists kept st',
       overlayListxattr o st = Done (kept, lerr) st' /\ name ∈ kept.
Proof.
  intros Hres Hne He Hget Hlist Hin.
  pose proof (reserved_name_passes_guard name Hres Hne) as Hguard.
  split.
  - unfold overlayGetxattr. rewrite Hguard.
    destruct He as [Hu | [Hu Hl]]; run; reflexivity.
  - unfold overlayListxattr.
    destruct He as [Hu | [Hu Hl]]; run;
      eexists _, _; (split; [reflexivity|]);
      apply elem_of_filter; split; assumption.
Qed.

End ExtendedAttributes.

(** C1, on a tree: the whiteout marker of "x", stored on the upper directory,
    is read back through the overlay, and listed. *)
Lemma overlayGetxattr_forwards_reserved_witness :
  let name := "trusted.overlay.whiteout.x" in
  let st := MemFS.start (MemFS.tree {[ name := "y" ]} ∅ ∅ ∅) in
  overlayGetxattr 0 name st
    = Done ("y", None) {| world := world st; log := [EvGetxattr 1 name "y" None] |}
  /\ exists kept st', overlayListxattr 0 st = Done (kept, None) st' /\ name ∈ kept.
Proof.
  intros name st.
  apply (overlayGetxattr_forwards_reserved 0 name st 1 "y" None (world st)
           {[ name ]} None (world st)).
  - reflexivity.
  - discriminate.
  - left. reflexivity.
  - reflexivity.
  - vm_compute. reflexivity.
  - apply elem_of_singleton. reflexivity.
Defined.

(** The guard at work on the in-memory layer, whose reserved prefix is
    "trusted.overlay.": a name outside the reserved namespace that happens
    to be a prefix of it is refused without a call to the layer, and the
    whiteout marker itself goes through. *)
Example guard_refuses_prefix_of_prefix :
  let st := MemFS.start (MemFS.tree {[ "trusted." := "v" ]} ∅ ∅ ∅) in
  overlayGetxattr 0 "trusted." st = Done ("", Some ENODATA) st.
Proof. reflexivity. Qed.

Example guard_lets_marker_through :
  HasPrefix "trusted.overlay." "trusted.overlay.whiteout.x" = false
  /\ HasPrefix "trusted.overlay.whiteout.x" "trusted.overlay." = true.
Proof. split; reflexivity. Qed.

(** ** Permission check *)

Section PermissionCheck.
Context {F : Type} `{!InodeOperations F, !MountSourceOperations F, !OverlayDeps F}.

(** C8 (amended).  With an upper counterpart the requested mask goes to the
    upper layer unchanged.  Without one, the lower layer is asked with
    write off; read is switched on exactly when write was requested, and a
    mask that did not ask for write is passed as it is. *)
Theorem overlayCheck_delegates (o : eid) (p : PermMask) (st : State F) (i : ino) :
  let e := entries (world st) !!! o in
  upper e = Some i \/ (upper e = None /\ lower e = Some i) ->
  let q := match upper e with Some _ => p | None => lowerMask p end in
  let r := op_check i q (world st) in
  overlayCheck o p st
    = Done (fst r) {| world := snd r; log := log st ++ [EvCheck i q (fst r)] |}
  /\ (upper e = None ->
      pWrite q = false /\ pRead q = (pRead p || pWrite p) /\ pExecute q = pExecute p).
Proof.
  intros e He q r. subst q r. split.
  - unfold overlayCheck. subst e.
    destruct He as [Hu | [Hu Hl]]; run.
    + destruct (op_check i p (world st)); reflexivity.
    + fold (lowerMask p). destruct (op_check i (lowerMask p) (world st)); reflexivity.
  - intros Hu. rewrite Hu. unfold lowerMask.
    destruct p as [[] [] []]; simpl; auto.
Qed.

End PermissionCheck.

(** C8, on a tree: "x" exists in the lower layer only; a request for write
    reaches the lower layer as a request for read. *)
Lemma overlayCheck_delegates_witness :
  let st := MemFS.start (MemFS.tree ∅ ∅ ∅ ∅) in
  overlayCheck 1 (mkPermMask false true false) st
    = Done None {| world := world st;
                   log := [EvCheck 3 (mkPermMask true false false) None] |}
  /\ (upper (entries (world st) !!! 1) = None ->
      pWrite (lowerMask (mkPermMask false true false)) = false
      /\ pRead (lowerMask (mkPermMask false true false)) = (false || true)
      /\ pExecute (lowerMask (mkPermMask false true false)) = false).
Proof.
  intros st.
  at_instance (overlayCheck_delegates 1 (mkPermMask false true false) st 3
                 (or_intror (conj eq_refl eq_refl))).
Defined.

(** C8 as stated does not hold: a request for execute alone on a lower-only
    entry reaches the lower layer with read still off. *)
Lemma overlayCheck_read_not_forced :
  let st := MemFS.start (MemFS.tree ∅ ∅ ∅ ∅) in
  let p := mkPermMask false false true in
  upper (entries (world st) !!! 1) = None
  /\ exists r st' q,
       overlayCheck 1 p st = Done r st'
       /\ log st' = [EvCheck 3 q r]
       /\ pRead q = false.
Proof.
  intros st p. split; [reflexivity|].
  exists None, {| world := world st; log := [EvCheck 3 p None] |}, p.
  repeat split; reflexivity.
Qed.

(** ** Invariant violations *)

Section Fatal.
Context {F : Type} `{!InodeOperations F, !MountSourceOperations F, !OverlayDeps F}.

(** C9.  A parent entry with neither upper nor lower makes overlayLookup
    panic, and Revalidate panics when the child, or the parent, is not an
    overlay inode (the child is examined first); none of them returns an
    error value. *)
Theorem invariant_violation_panics
    (parent : eid) (inode : ino) (name : string)
    (o : overlayMountSourceOperations) (pi ci : ino) (st : State F) :
  (upper (entries (world st) !!! parent) = None ->
   lower (entries (world st) !!! parent) = None ->
   overlayLookup parent inode name st
     = Panicked "invalid overlayEntry, needs at least one Inode")
  /\ (i_overlay (inodes (world st) !!! ci) = None ->
      Revalidate o name pi ci st
        = Panicked "overlay cannot revalidate inode that is not an overlay")
  /\ (i_overlay (inodes (world st) !!! pi) = None ->
      Revalidate o name pi ci st
        = Panicked
            match i_overlay (inodes (world st) !!! ci) with
            | None => "overlay cannot revalidate inode that is not an overlay"
            | Some _ =>
              "trying to revalidate an overlay inode but the parent is not an overlay"
            end).
Proof.
  repeat split.
  - intros Hu Hl. unfold overlayLookup. run. reflexivity.
  - intros Hc. unfold Revalidate. run. reflexivity.
  - intros Hp. unfold Revalidate. run.
    destruct (i_overlay (inodes (world st) !!! ci)); run; reflexivity.
Qed.

End Fatal.

(** C9, on a heap with a broken entry (number 7, neither upper nor lower), a
    plain inode (1) and an overlay inode (2). *)
Lemma invariant_violation_panics_witness :
  let w := {| inodes := {[ 1 := mkInode (MemFS.dirAttr 1) None 1;
                           2 := mkInode (MemFS.dirAttr 2) (Some 7) 0 ]};
              entries := {[ 7 := mkOverlayEntry false None None ]};
              fs := MemFS.mk ∅ ∅ ∅ |} in
  let st := MemFS.start w in
  let o := mkOverlayMount 1 2 in
  overlayLookup 7 2 "x" st = Panicked "invalid overlayEntry, needs at least one Inode"
  /\ Revalidate o "x" 2 1 st
     = Panicked "overlay cannot revalidate inode that is not an overlay"
  /\ Revalidate o "x" 1 2 st
     = Panicked "trying to revalidate an overlay inode but the parent is not an overlay".
Proof.
  intros w st o.
  pose proof (invariant_violation_panics 7 2 "x" o 2 1 st) as (H1 & H2 & _).
  pose proof (invariant_violation_panics 7 2 "x" o 1 2 st) as (_ & _ & H3).
  split; [|split].
  - apply H1; reflexivity.
  - apply H2; reflexivity.
  - apply H3; reflexivity.
Defined.

(** ** Revalidation *)

Section Revalidation.
Context {F : Type} `{!InodeOperations F, !MountSourceOperations F, !OverlayDeps F}.

(** C10 (amended).  For an overlay child under an overlay parent: when the
    lower mount asks for revalidation of the child's lower counterpart the
    call panics; otherwise a child without upper counterpart yields false,
    with no question put to the upper mount, and a child with an upper
    counterpart yields the upper mount's answer. *)
Theorem Revalidate_result
    (o : overlayMountSourceOperations) (name : string) (parent child : ino)
    (st : State F) (ce pe : eid) :
  i_overlay (inodes (world st) !!! child) = Some ce ->
  i_overlay (inodes (world st) !!! parent) = Some pe ->
  let cE := entries (world st) !!! ce in
  let pE := entries (world st) !!! pe in
  let '(fromLower, w1, evs) := lowerRevalidate o name pE cE (world st) in
  if fromLower
  then Revalidate o name parent child st
         = Panicked "an overlay cannot revalidate file objects from the lower fs"
  else
    forall ce1 pe1,
      i_overlay (inodes w1 !!! child) = Some ce1 ->
      i_overlay (inodes w1 !!! parent) = Some pe1 ->
      match upper (entries w1 !!! ce1) with
      | None =>
        Revalidate o name parent child st
          = Done false {| world := w1; log := log st ++ evs |}
      | Some cu =>
        let r := op_Revalidate (ms_upper o) name (upper (entries w1 !!! pe1)) (Some cu) w1 in
        Revalidate o name parent child st
          = Done (fst r)
              {| world := snd r;
                 log := (log st ++ evs)
                        ++ [EvRevalidate (ms_upper o) name
                              (upper (entries w1 !!! pe1)) (Some cu) (fst r)] |}
      end.
Proof.
  intros Hc Hp cE pE. subst cE pE.
  unfold lowerRevalidate, Revalidate. run.
  destruct (lower (entries (world st) !!! ce)) as [cl|]; run.
  - destruct (op_Revalidate (ms_lower o) name (lower (entries (world st) !!! pe))
                (Some cl) (world st)) as [[] w1]; run; [reflexivity|].
    intros ce1 pe1 Hc1 Hp1. run.
    destruct (upper (entries w1 !!! ce1)) as [cu|]; run; [|reflexivity].
    destruct (op_Revalidate (ms_upper o) name (upper (entries w1 !!! pe1)) (Some cu) w1);
      reflexivity.
  - intros ce1 pe1 Hc1 Hp1.
    assert (ce1 = ce) by congruence. assert (pe1 = pe) by congruence. subst ce1 pe1.
    clear Hc1 Hp1. run. rewrite app_nil_r.
    destruct (upper (entries (world st) !!! ce)) as [cu|]; run.
    + destruct (op_Revalidate (ms_upper o) name
                  (upper (entries (world st) !!! pe)) (Some cu) (world st)).
      reflexivity.
    + destruct st; reflexivity.
Qed.

End Revalidation.

(** C10, on a tree: "x" has a lower counterpart only and the lower mount does
    not ask for revalidation; the answer is false and only the lower mount
    was asked. *)
Lemma Revalidate_result_witness :
  let st := MemFS.start (MemFS.tree ∅ ∅ ∅ ∅) in
  Revalidate (mkOverlayMount 1 2) "x" 10 11 st
    = Done false {| world := world st;
                    log := [EvRevalidate 2 "x" (Some 2) (Some 3) false] |}.
Proof.
  intros st.
  at_instance (Revalidate_result (mkOverlayMount 1 2) "x" 10 11 st 1 0
                 eq_refl eq_refl 1 0 eq_refl eq_refl).
Defined.

(** C10 as stated does not hold: "x" has no upper counterpart, the lower
    mount asks for revalidation, and Revalidate panics instead of returning
    false. *)
Lemma Revalidate_lower_only_panics :
  let st := MemFS.start (MemFS.tree ∅ ∅ ∅ {[ 2 ]}) in
  i_overlay (inodes (world st) !!! 11) = Some 1
  /\ upper (entries (world st) !!! 1) = None
  /\ Revalidate (mkOverlayMount 1 2) "x" 10 11 st
     = Panicked "an overlay cannot revalidate file objects from the lower fs".
Proof. intros st. repeat split; vm_compute; reflexivity. Qed.

(** ** Lookup *)

Lemma not_whiteout (buf : string) (gerr : option error) :
  ~ (gerr = None /\ buf = "y") ->
  bool_decide (gerr = None) && bool_decide (buf = "y") = false.
Proof.
  intros H. destruct (bool_decide (gerr = None)) eqn:E1; [|reflexivity].
  destruct (bool_decide (buf = "y")) eqn:E2; [|reflexivity].
  exfalso. apply H. split.
  - apply bool_decide_eq_true in E1. exact E1.
  - apply bool_decide_eq_true in E2. exact E2.
Qed.

Section Lookup.
Context {F : Type} `{!InodeOperations F, !MountSourceOperations F, !OverlayDeps F}.

Lemma absent_inv (child : option Dirent) (err : option error) :
  absent child err = true ->
  unhandled err = false /\ child ≫= d_Inode = None.
Proof.
  unfold absent, IsNegative. intros H. apply andb_true_iff in H as [H1 H2].
  split; [destruct (unhandled err); [discriminate|reflexivity]|].
  destruct child as [[[i|] n]|]; simpl in *; congruence.
Qed.

(** C3 (amended).  When the upper lookup raises no error other than
    not-found and the whiteout marker of the name is set on the parent's
    upper directory, overlayLookup makes exactly one lookup, in the upper
    layer.  Without a positive upper match it answers with a negative
    Dirent (only when the upper lookup answered negative) or with
    not-found; with a positive upper match (a file created over the
    whiteout) it answers with that upper file alone: an entry with no
    lower counterpart and lowerExists false, provenance flag true, or the
    error of newOverlayEntry. *)
Theorem overlayLookup_under_whiteout
    (parent : eid) (inode : ino) (name : string) (st : State F)
    (pu : ino) (child : option Dirent) (err : option error) (wA w1 : World F) :
  upper (entries (world st) !!! parent) = Some pu ->
  op_Lookup pu name (world st) = ((child, err), wA) ->
  unhandled err = false ->
  op_Getxattr pu (XattrOverlayWhiteout name) wA = (("y", None), w1) ->
  exists r st' evs,
    overlayLookup parent inode name st = Done r st'
    /\ log st' = log st ++ evs
    /\ lookupsOf evs = [(pu, name)]
    /\ match child ≫= d_Inode with
       | None =>
         r = if answeredNegative child
             then (Some (NewNegativeDirent name), false, None)
             else (None, false, Some ENOENT)
       | Some ui =>
         match newOverlayEntry_check w1 (Some ui) None false with
         | Some e => r = (None, false, Some e)
         | None =>
           exists oi en,
             r = (Some (NewDirent oi name), true, None)
             /\ i_overlay (inodes (world st') !!! oi) = Some en
             /\ entries (world st') !!! en = mkOverlayEntry false None (Some ui)
         end
       end.
Proof.
  intros Hu Hlook Herr Hget.
  unfold overlayLookup. run.
  destruct child as [[[ui|] cname]|];
    cbn [mbind option_bind answeredNegative IsNegative]; run.
  - unfold newOverlayEntry, newOverlayInode. run.
    destruct (newOverlayEntry_check w1 (Some ui) None false) as [e|] eqn:Hchk; run.
    + eexists _, _, _. split; [reflexivity|]. cbn [log]. rewrite <- !app_assoc.
      split; [reflexivity|]. split; [reflexivity|]. reflexivity.
    + rewrite entries_withEntry. cbn [upper]. run.
      eexists _, _, _. split; [reflexivity|]. cbn [log]. rewrite <- !app_assoc.
      split; [reflexivity|]. split; [reflexivity|].
      eexists _, _. split; [reflexivity|]. cbn [world].
      rewrite inodes_withInode, entries_withInode, entries_withEntry.
      split; reflexivity.
  - eexists _, _, _. split; [reflexivity|]. cbn [log]. rewrite <- !app_assoc.
    split; [reflexivity|]. split; reflexivity.
  - eexists _, _, _. split; [reflexivity|]. cbn [log]. rewrite <- !app_assoc.
    split; [reflexivity|]. split; reflexivity.
Qed.

(** Every path of overlayLookup at once: it panics only on an entry with
    neither counterpart; otherwise it returns, having made no call that
    changes a layer, and a negative Dirent comes out only behind a
    negative answer of the upper layer. *)
Lemma overlayLookup_paths
    (parent : eid) (inode : ino) (name : string) (st : State F) :
  let p := entries (world st) !!! parent in
  match overlayLookup parent inode name st with
  | Panicked _ => upper p = None /\ lower p = None
  | Done r st' =>
    exists evs,
      log st' = log st ++ evs
      /\ forallb (fun ev => negb (mutation ev)) evs = true
      /\ (allAbsent evs = true ->
          r = if upperNegative p name (world st)
              then (Some (NewNegativeDirent name), false, None)
              else (None, false, Some ENOENT))
      /\ (forall d, fst (fst r) = Some d -> IsNegative d = true ->
          upperNegative p name (world st) = true)
  end.
Proof.
  intros p. subst p.
  unfold upperNegative, overlayLookup, overlayLookup_lower, overlayLookup_merge,
    newOverlayEntry, newOverlayInode.
  destruct (upper (entries (world st) !!! parent)) as [pu|] eqn:Hu;
  destruct (lower (entries (world st) !!! parent)) as [pl|] eqn:Hl.
  all: crunch.
  all: try rewrite !entries_withEntry; crunch.
  all: try (split; reflexivity).
  all: eexists; cbn [log]; rewrite <- ?app_assoc; (split; [reflexivity|]).
  all: unfold allAbsent, answeredNegative, IsNegative; cbn [app forallb d_Inode fst snd].
  all: try rewrite !andb_false_r; try rewrite !andb_true_r.
  all: split; [reflexivity|].
  all: split;
    [ intros Hall;
      unfold absent, IsNegative in Hall; cbn [d_Inode] in Hall;
      repeat match goal with
             | H : unhandled _ = _ |- _ => rewrite H in Hall
             end;
      cbn [negb andb] in Hall; try discriminate Hall; try reflexivity
    | intros d Hd Hneg; cbn [fst snd] in Hd; try discriminate Hd; try reflexivity;
      try (injection Hd as <-; discriminate Hneg) ].
Qed.

(** C4.  On a parent entry with at least one counterpart: when the upper
    layer, asked for the name, produces no match, and the lower layer,
    asked for the name, produces none either, overlayLookup returns the
    not-found error, except that it returns a negative Dirent when the
    upper layer's own lookup answered with a negative Dirent.  And whatever
    the layers answer, a negative Dirent is returned only if the upper
    layer's lookup answered negative. *)
Theorem overlayLookup_absent
    (parent : eid) (inode : ino) (name : string) (st : State F) :
  let p := entries (world st) !!! parent in
  upper p <> None \/ lower p <> None ->
  (noMatch (upper p) name (world st) = true ->
   noMatch (lower p) name (afterUpper p name (world st)) = true ->
   exists st',
     overlayLookup parent inode name st
     = Done (if upperNegative p name (world st)
             then (Some (NewNegativeDirent name), false, None)
             else (None, false, Some ENOENT)) st')
  /\ (forall r st' d,
        overlayLookup parent inode name st = Done r st' ->
        fst (fst r) = Some d -> IsNegative d = true ->
        upperNegative p name (world st) = true).
Proof.
  intros p Hp. split.
  - subst p. unfold noMatch, afterUpper, upperNegative, answeredNegative.
    unfold overlayLookup, overlayLookup_lower, overlayLookup_merge.
    destruct (upper (entries (world st) !!! parent)) as [pu|] eqn:Hu;
    destruct (lower (entries (world st) !!! parent)) as [pl|] eqn:Hl;
      try (exfalso; destruct Hp; congruence).
    all: crunch.
    all: cbn [fst snd]; unfold absent, IsNegative; cbn [d_Inode].
    all: repeat match goal with
                | H : unhandled _ = _ |- _ => rewrite H
                end; cbn [negb andb].
    all: intros Hup Hlow; try discriminate Hup; try discriminate Hlow.
    all: eexists; reflexivity.
  - intros r st' d Hrun Hd Hneg.
    pose proof (overlayLookup_paths parent inode name st) as H. cbv zeta in H.
    rewrite Hrun in H. destruct H as (evs & _ & _ & _ & H). exact (H d Hd Hneg).
Qed.

(** C5.  A name with no upper match and no whiteout, found in the lower
    layer: the result is a merged Dirent whose overlay entry has no upper
    counterpart, the lower inode as lower counterpart (a reference on it
    is taken and kept) and lowerExists set; the provenance flag is
    false. *)
Theorem overlayLookup_lower_only
    (parent : eid) (inode : ino) (name : string) (st : State F)
    (pl : ino) (w1 : World F) (evs1 : list Event)
    (c : Dirent) (err : option error) (w2 : World F) (li : ino) :
  let p := entries (world st) !!! parent in
  lower p = Some pl ->
  upperSilent p name (world st) w1 evs1 ->
  op_Lookup pl name w1 = ((Some c, err), w2) ->
  unhandled err = false ->
  d_Inode c = Some li ->
  newOverlayEntry_check w2 None (Some li) true = None ->
  exists oi en st',
    overlayLookup parent inode name st = Done (Some (NewDirent oi name), false, None) st'
    /\ i_overlay (inodes (world st') !!! oi) = Some en
    /\ entries (world st') !!! en = mkOverlayEntry true (Some li) None
    /\ log st' = log st ++ evs1
                 ++ [EvLookup pl name (Some c) err; EvIncRef li; EvDirentDecRef c].
Proof.
  intros p Hl Hup Hlook Herr Hc Hchk. subst p.
  destruct c as [ci cname]. cbn [d_Inode] in Hc. subst ci.
  unfold overlayLookup.
  inversion Hup as [Hu Hw He | pu child uerr wA buf gerr wB Hu Hulook Habs Hget Hnw Hw He];
    subst.
  - run. unfold overlayLookup_lower, overlayLookup_merge, newOverlayEntry, newOverlayInode.
    run. rewrite entries_withEntry. run.
    eexists _, _, _. split; [reflexivity|]. cbn [world log].
    rewrite inodes_withInode, entries_withInode, entries_withEntry.
    rewrite <- !app_assoc. repeat split.
  - apply absent_inv in Habs as [Huerr Hchild].
    pose proof (not_whiteout _ _ Hnw) as Hnw'.
    destruct child as [[[i|] n]|]; try discriminate Hchild; run.
    all: unfold overlayLookup_lower, overlayLookup_merge, newOverlayEntry, newOverlayInode.
    all: run; rewrite entries_withEntry; run.
    all: eexists _, _, _; (split; [reflexivity|]); cbn [world log released app].
    all: rewrite inodes_withInode, entries_withInode, entries_withEntry.
    all: rewrite <- !app_assoc; repeat split.
Qed.

(** C6.  An upper match, no whiteout, and a lower match of compatible type
    (the same type, or both directories in the sense of IsDir): the upper
    Inode's stable attributes become those of the lower Inode; the entry
    has the upper match as upper counterpart and lowerExists set; for a
    directory it keeps the lower Inode, for anything else the reference on
    the lower Inode is dropped and the entry has no lower counterpart. *)
Theorem overlayLookup_both_layers
    (parent : eid) (inode : ino) (name : string) (st : State F)
    (pu pl : ino) (uc : Dirent) (uerr : option error) (wA : World F)
    (buf : string) (gerr : option error) (wB : World F)
    (lc : Dirent) (lerr : option error) (w2 : World F) (ui li : ino) :
  let p := entries (world st) !!! parent in
  upper p = Some pu ->
  lower p = Some pl ->
  op_Lookup pu name (world st) = ((Some uc, uerr), wA) ->
  unhandled uerr = false ->
  d_Inode uc = Some ui ->
  op_Getxattr pu (XattrOverlayWhiteout name) wA = ((buf, gerr), wB) ->
  ~ (gerr = None /\ buf = "y") ->
  op_Lookup pl name wB = ((Some lc, lerr), w2) ->
  unhandled lerr = false ->
  d_Inode lc = Some li ->
  let ua := i_StableAttr (inodes w2 !!! ui) in
  let la := i_StableAttr (inodes w2 !!! li) in
  sa_Type ua = sa_Type la \/ (IsDir ua = true /\ IsDir la = true) ->
  let kept := if IsDir la then Some li else None in
  newOverlayEntry_check (withStableAttr ui la w2) (Some ui) kept true = None ->
  exists oi en st',
    overlayLookup parent inode name st = Done (Some (NewDirent oi name), true, None) st'
    /\ i_StableAttr (inodes (world st') !!! ui) = la
    /\ i_overlay (inodes (world st') !!! oi) = Some en
    /\ entries (world st') !!! en = mkOverlayEntry true kept (Some ui)
    /\ log st' = log st
                 ++ [EvLookup pu name (Some uc) uerr; EvIncRef ui; EvDirentDecRef uc;
                     EvGetxattr pu (XattrOverlayWhiteout name) buf gerr;
                     EvLookup pl name (Some lc) lerr; EvIncRef li; EvDirentDecRef lc]
                 ++ (if IsDir la then [] else [EvDecRef li]).
Proof.
  intros p Hu Hl Hulook Huerr Huc Hget Hnw Hllook Hlerr Hlc ua la Hcompat kept Hchk.
  subst p. destruct uc as [uci ucn], lc as [lci lcn]. cbn [d_Inode] in Huc, Hlc. subst uci lci.
  pose proof (not_whiteout _ _ Hnw) as Hnw'.
  assert (Hc : bool_decide (sa_Type ua = sa_Type la) || (IsDir ua && IsDir la) = true).
  { destruct Hcompat as [Ht | [H1 H2]].
    - rewrite (bool_decide_eq_true_2 _ Ht). reflexivity.
    - rewrite H1, H2. apply orb_true_r. }
  subst ua. fold la in Hc.
  unfold overlayLookup. run.
  unfold overlayLookup_lower. run. fold la. rewrite Hc. run.
  unfold overlayLookup_merge. run. fold la.
  assert (Hattr : i_StableAttr (inodes (withStableAttr ui la w2) !!! ui) = la).
  { unfold withStableAttr; cbn [inodes]. rewrite lookup_total_insert_eq. reflexivity. }
  rewrite Hattr. subst kept.
  unfold newOverlayEntry, newOverlayInode.
  destruct (IsDir la) eqn:Hdir; run; rewrite entries_withEntry; run.
  all: eexists _, _, _; (split; [reflexivity|]); cbn [world log].
  all: rewrite stolen_attr_kept, inodes_withInode, entries_withInode, entries_withEntry.
  all: rewrite <- !app_assoc; repeat split.
Qed.

End Lookup.

(** C3, on a tree: "x" was removed (the marker is set) and nothing was created
    since; the lookup asks the upper layer only and answers not-found. *)
Lemma overlayLookup_under_whiteout_witness :
  let st := MemFS.start (MemFS.tree {[ "trusted.overlay.whiteout.x" := "y" ]} ∅ ∅ ∅) in
  exists st' evs,
    overlayLookup 0 10 "x" st = Done (None, false, Some ENOENT) st'
    /\ log st' = evs
    /\ lookupsOf evs = [(1, "x")].
Proof.
  intros st.
  destruct (overlayLookup_under_whiteout 0 10 "x" st 1 None (Some ENOENT)
              (world st) (world st) ltac:(calc) ltac:(calc) ltac:(calc) ltac:(calc))
    as (r & st' & evs & Hrun & Hlog & Hlook & Hr).
  cbn in Hr. subst r.
  exists st', evs. repeat split; assumption.
Defined.

(** C3 as stated does not hold: with the marker of "x" set and a file "x"
    created since in the upper layer, the lookup answers with that file, a
    Dirent that is not negative, and no error. *)
Lemma overlayLookup_file_over_whiteout :
  let st := MemFS.start (MemFS.tree {[ "trusted.overlay.whiteout.x" := "y" ]}
                                    {[ "x" := 6 ]} ∅ ∅) in
  (exists st', overlayHasWhiteout 1 "x" st = Done true st')
  /\ exists d st',
       overlayLookup 0 10 "x" st = Done (Some d, true, None) st'
       /\ IsNegative d = false.
Proof.
  intros st. split.
  - eexists. vm_compute. reflexivity.
  - eexists _, _. split; [vm_compute; reflexivity | reflexivity].
Qed.

(** C4, on a tree: "zz" is in neither layer and the upper layer gives no
    negative Dirent; the lookup answers not-found. *)
Lemma overlayLookup_absent_witness :
  let st := MemFS.start (MemFS.tree ∅ ∅ ∅ ∅) in
  exists st',
    overlayLookup 0 10 "zz" st = Done (None, false, Some ENOENT) st'.
Proof.
  intros st.
  destruct (overlayLookup_absent 0 10 "zz" st (or_introl (Some_ne_None 1))) as [Habsent _].
  assert (Hupper : noMatch (upper (entries (world st) !!! 0)) "zz" (world st) = true) by calc.
  assert (Hlower : noMatch (lower (entries (world st) !!! 0)) "zz"
                     (afterUpper (entries (world st) !!! 0) "zz" (world st)) = true) by calc.
  destruct (Habsent Hupper Hlower) as (st' & Hrun).
  exists st'. exact Hrun.
Defined.

(** C5, on a tree: "x" is a file of the lower layer (inode 3), unknown to the
    upper layer and not whited out. *)
Lemma overlayLookup_lower_only_witness :
  let st := MemFS.start (MemFS.tree ∅ ∅ ∅ ∅) in
  exists oi en st',
    overlayLookup 0 10 "x" st = Done (Some (NewDirent oi "x"), false, None) st'
    /\ i_overlay (inodes (world st') !!! oi) = Some en
    /\ entries (world st') !!! en = mkOverlayEntry true (Some 3) None
    /\ log st' = [EvLookup 1 "x" None (Some ENOENT);
                  EvGetxattr 1 "trusted.overlay.whiteout.x" "" (Some ENODATA);
                  EvLookup 2 "x" (Some (NewDirent 3 "x")) None;
                  EvIncRef 3; EvDirentDecRef (NewDirent 3 "x")].
Proof.
  intros st.
  assert (Hup : upperSilent (entries (world st) !!! 0) "x" (world st) (world st)
                  (EvLookup 1 "x" None (Some ENOENT) :: released None
                   ++ [EvGetxattr 1 (XattrOverlayWhiteout "x") "" (Some ENODATA)])).
  { apply (silent_absent _ _ _ 1 None (Some ENOENT) (world st) "" (Some ENODATA));
      try calc.
    intros [H _]. discriminate H. }
  exact (overlayLookup_lower_only 0 10 "x" st 2 (world st) _ (NewDirent 3 "x") None
           (world st) 3 ltac:(calc) Hup ltac:(calc) ltac:(calc) ltac:(calc) ltac:(calc)).
Defined.

(** C6, on a tree: "x" is a file in both layers (inode 6 above, inode 3
    below); the upper inode takes over the lower one's attributes and the
    reference on the lower inode is dropped. *)
Lemma overlayLookup_both_layers_witness :
  let st := MemFS.start (MemFS.tree ∅ {[ "x" := 6 ]} ∅ ∅) in
  exists oi en st',
    overlayLookup 0 10 "x" st = Done (Some (NewDirent oi "x"), true, None) st'
    /\ i_StableAttr (inodes (world st') !!! 6) = MemFS.fileAttr 3
    /\ i_overlay (inodes (world st') !!! oi) = Some en
    /\ entries (world st') !!! en = mkOverlayEntry true None (Some 6)
    /\ log st' = [EvLookup 1 "x" (Some (NewDirent 6 "x")) None; EvIncRef 6;
                  EvDirentDecRef (NewDirent 6 "x");
                  EvGetxattr 1 "trusted.overlay.whiteout.x" "" (Some ENODATA);
                  EvLookup 2 "x" (Some (NewDirent 3 "x")) None; EvIncRef 3;
                  EvDirentDecRef (NewDirent 3 "x"); EvDecRef 3].
Proof.
  intros st.
  assert (Hnw : ~ (Some ENODATA = None /\ "" = "y")).
  { intros [H _]. discriminate H. }
  exact (overlayLookup_both_layers 0 10 "x" st 1 2 (NewDirent 6 "x") None (world st)
           "" (Some ENODATA) (world st) (NewDirent 3 "x") None (world st) 6 3
           ltac:(calc) ltac:(calc) ltac:(calc) ltac:(calc) ltac:(calc) ltac:(calc) Hnw
           ltac:(calc) ltac:(calc) ltac:(calc) ltac:(left; calc) ltac:(calc)).
Defined.

(** ** Rename *)

Lemma nonempty_size (X : gset string) : X <> ∅ -> bool_decide (0 < size X) = true.
Proof.
  intros H. apply bool_decide_eq_true_2.
  assert (size X <> 0) as Hs.
  { apply size_non_empty_iff. intros Heq. apply H. apply leibniz_equiv. exact Heq. }
  lia.
Qed.

Section Rename.
Context {F : Type} `{!InodeOperations F, !MountSourceOperations F, !OverlayDeps F}.

(** C2.  A replacing rename whose destination name resolves, in the new
    parent, to a non-negative directory with at least one child returns
    ENOTEMPTY, and up to that return it has made no copy-up, has written
    no attribute (so no whiteout), and has made no rename or removal call
    in the upper layer. *)
Theorem overlayRename_onto_nonempty_directory
    (o : eid) (oldParent renamed newParent : Dirent) (newName : string)
    (st : State F) (ri ni oi : ino) (ne : eid)
    (replaced : Dirent) (inUpper : bool) (st1 : State F) (di : ino)
    (children : gset string) (w2 : World F) :
  d_Inode renamed = Some ri ->
  i_overlay (inodes (world st) !!! ri) <> None ->
  d_Inode newParent = Some ni ->
  i_overlay (inodes (world st) !!! ni) = Some ne ->
  d_Inode oldParent = Some oi ->
  i_overlay (inodes (world st) !!! oi) <> None ->
  overlayLookup ne ni newName st = Done (Some replaced, inUpper, None) st1 ->
  d_Inode replaced = Some di ->
  IsDir (i_StableAttr (inodes (world st1) !!! di)) = true ->
  op_readdirOne replaced (world st1) = ((children, None), w2) ->
  children <> ∅ ->
  exists st' evs,
    overlayRename o oldParent renamed newParent newName true st
      = Done (Some ENOTEMPTY) st'
    /\ log st' = log st ++ evs
    /\ forallb (fun ev => negb (mutation ev)) evs = true.
Proof.
  intros Hr Hro Hn Hno Ho Hoo Hlook Hd Hdir Hread Hne.
  pose proof (overlayLookup_paths ne ni newName st) as Hp. rewrite Hlook in Hp.
  destruct Hp as (evs & Hlog & Hquiet & _).
  pose proof (nonempty_size _ Hne) as Hsize.
  unfold overlayRename, overlayRename_replaced. run.
  destruct (i_overlay (inodes (world st) !!! ri)) as [re|] eqn:Hre; [|congruence].
  destruct (i_overlay (inodes (world st) !!! oi)) as [oe|] eqn:Hoe; [|congruence].
  run.
  eexists _, (evs ++ [EvReaddir replaced children None; EvDirentDecRef replaced]).
  split; [reflexivity|]. cbn [log]. split.
  - rewrite <- !app_assoc. reflexivity.
  - rewrite forallb_app, Hquiet. reflexivity.
Qed.

End Rename.

(** C2, on a tree: renaming "x" onto "d", a directory of the lower layer that
    holds "f". *)
Lemma overlayRename_onto_nonempty_directory_witness :
  let st := MemFS.start (MemFS.tree ∅ ∅ ∅ ∅) in
  let root := NewDirent 10 "/" in
  exists st' evs,
    overlayRename 0 root (NewDirent 11 "x") root "d" true st = Done (Some ENOTEMPTY) st'
    /\ log st' = log st ++ evs
    /\ forallb (fun ev => negb (mutation ev)) evs = true.
Proof.
  intros st root.
  eapply (overlayRename_onto_nonempty_directory 0 root (NewDirent 11 "x") root "d" st
            11 10 10 0 (NewDirent 13 "d") false _ 13 {[ "f" ]}).
  - reflexivity.
  - vm_compute. discriminate.
  - reflexivity.
  - calc.
  - reflexivity.
  - vm_compute. discriminate.
  - vm_compute. reflexivity.
  - reflexivity.
  - calc.
  - vm_compute. reflexivity.
  - intros H. apply (f_equal size) in H. vm_compute in H. discriminate H.
Defined.

(** ** Remove *)

Section Remove.
Context {F : Type} `{!InodeOperations F, !MountSourceOperations F, !OverlayDeps F}.

(** overlayRemove, step by step, when the copy-up of the parent and the
    removal delegated to the upper layer succeed and the child's entry has
    lowerExists set: its result is that of the write of the marker. *)
Lemma overlayRemove_run
    (o : eid) (parent child : Dirent) (st : State F)
    (w1 : World F) (ci : ino) (ce : eid) (u : ino)
    (w2 : World F) (evs : list Event) (u2 : ino) (serr : option error) (w3 : World F) :
  op_copyUpLockedForRename parent (world st) = (None, w1) ->
  d_Inode child = Some ci ->
  i_overlay (inodes w1 !!! ci) = Some ce ->
  lowerExists (entries w1 !!! ce) = true ->
  upper (entries w1 !!! o) = Some u ->
  upperRemoval u (d_name child) (entries w1 !!! ce)
    (sa_Type (i_StableAttr (inodes w1 !!! ci))) w1 = (None, w2, evs) ->
  upper (entries w2 !!! o) = Some u2 ->
  op_Setxattr u2 (XattrOverlayWhiteout (d_name child)) "y" w2 = (serr, w3) ->
  overlayRemove o parent child st
  = Done serr {| world := w3;
                 log := log st ++ [EvCopyUp parent None] ++ evs
                        ++ [EvSetxattr u2 (XattrOverlayWhiteout (d_name child)) "y" serr] |}.
Proof.
  intros Hcopy Hci Hce Hlow Hu Hrm Hu2 Hset.
  unfold upperRemoval in Hrm. unfold overlayRemove. run.
  destruct (upper (entries w1 !!! ce)) as [cu|]; run.
  - destruct (bool_decide (sa_Type (i_StableAttr (inodes w1 !!! ci)) = Directory)); run.
    + destruct (op_RemoveDirectory u (d_name child) w1) as [r w] eqn:E.
      cbn [fst snd] in Hrm. injection Hrm as -> -> <-. run.
      destruct serr; rewrite <- !app_assoc; reflexivity.
    + destruct (op_Remove u (d_name child) w1) as [r w] eqn:E.
      cbn [fst snd] in Hrm. injection Hrm as -> -> <-. run.
      destruct serr; rewrite <- !app_assoc; reflexivity.
  - injection Hrm as Hw He. subst w2 evs.
    assert (u2 = u) by congruence. subst u2. run.
    destruct serr; rewrite <- ?app_assoc; reflexivity.
Qed.

(** overlayLookup behind a whiteout when the upper layer reports the name
    absent: one lookup, in the upper layer, and the answer not-found, or a
    negative Dirent if the upper layer gave one. *)
Lemma overlayLookup_masked_run
    (parent : eid) (inode : ino) (name : string) (st : State F)
    (pu : ino) (found : option Dirent) (err : option error) (wA wB : World F) :
  upper (entries (world st) !!! parent) = Some pu ->
  op_Lookup pu name (world st) = ((found, err), wA) ->
  absent found err = true ->
  op_Getxattr pu (XattrOverlayWhiteout name) wA = (("y", None), wB) ->
  overlayLookup parent inode name st
  = Done (if answeredNegative found
          then (Some (NewNegativeDirent name), false, None)
          else (None, false, Some ENOENT))
         {| world := wB;
            log := log st ++ EvLookup pu name found err :: released found
                   ++ [EvGetxattr pu (XattrOverlayWhiteout name) "y" None] |}.
Proof.
  intros Hu Hlook Habs Hget.
  apply absent_inv in Habs as [Herr Hfound].
  destruct found as [[[i|] n]|]; try discriminate Hfound.
  all: unfold overlayLookup; run.
  all: cbn [released app]; rewrite <- !app_assoc; reflexivity.
Qed.

(** C7 (amended).  Remove of a child whose entry has lowerExists set, when
    the copy-up of the parent and the removal delegated to the upper layer
    succeed: the removal is delegated only if the child has an upper
    counterpart (RemoveDirectory for a Directory, Remove otherwise), and in
    either case the whiteout marker of the name is then written on the
    parent's upper directory, which is the last call made.  If the write
    succeeds, the marker is read back, and the upper layer reports the
    name absent, a following lookup of the name makes no lookup in the
    lower layer and answers not-found, or a negative Dirent when the upper
    layer answered with a negative Dirent. *)
Theorem overlayRemove_whiteout_then_lookup
    (o : eid) (parent child : Dirent) (inode : ino) (st : State F)
    (w1 : World F) (ci : ino) (ce : eid) (u : ino)
    (w2 : World F) (evs : list Event) (u2 : ino) (w3 : World F)
    (found : option Dirent) (err : option error) (wA wB : World F) :
  let name := d_name child in
  op_copyUpLockedForRename parent (world st) = (None, w1) ->
  d_Inode child = Some ci ->
  i_overlay (inodes w1 !!! ci) = Some ce ->
  let c := entries w1 !!! ce in
  lowerExists c = true ->
  upper (entries w1 !!! o) = Some u ->
  upperRemoval u name c (sa_Type (i_StableAttr (inodes w1 !!! ci))) w1 = (None, w2, evs) ->
  upper (entries w2 !!! o) = Some u2 ->
  op_Setxattr u2 (XattrOverlayWhiteout name) "y" w2 = (None, w3) ->
  upper (entries w3 !!! o) = Some u2 ->
  op_Lookup u2 name w3 = ((found, err), wA) ->
  absent found err = true ->
  op_Getxattr u2 (XattrOverlayWhiteout name) wA = (("y", None), wB) ->
  exists st1 st2 evs2,
    overlayRemove o parent child st = Done None st1
    /\ world st1 = w3
    /\ log st1 = log st ++ [EvCopyUp parent None] ++ evs
                 ++ [EvSetxattr u2 (XattrOverlayWhiteout name) "y" None]
    /\ overlayLookup o inode name st1
       = Done (if answeredNegative found
               then (Some (NewNegativeDirent name), false, None)
               else (None, false, Some ENOENT)) st2
    /\ world st2 = wB
    /\ log st2 = log st1 ++ evs2
    /\ lookupsOf evs2 = [(u2, name)].
Proof.
  intros name Hcopy Hci Hce c Hlow Hu Hrm Hu2 Hset Hu3 Hlook Habs Hget.
  subst c name.
  eexists _, _, _.
  split; [exact (overlayRemove_run _ _ _ _ _ _ _ _ _ _ _ _ _
                   Hcopy Hci Hce Hlow Hu Hrm Hu2 Hset)|].
  split; [reflexivity|]. split; [reflexivity|].
  split; [apply (overlayLookup_masked_run _ _ _ _ u2 found err wA wB);
          [exact Hu3 | exact Hlook | exact Habs | exact Hget]|].
  split; [reflexivity|]. split; [reflexivity|].
  destruct found as [c|]; reflexivity.
Qed.

End Remove.

(** C7, on a tree: "x" exists in the lower layer only; it is removed, the
    marker is written on the upper directory, and the next lookup answers
    not-found while the lower directory still holds "x". *)
Lemma overlayRemove_whiteout_then_lookup_witness :
  let st := MemFS.start (MemFS.tree ∅ ∅ ∅ ∅) in
  exists st1 st2,
    overlayRemove 0 (NewDirent 10 "/") (NewDirent 11 "x") st = Done None st1
    /\ log st1 = [EvCopyUp (NewDirent 10 "/") None;
                  EvSetxattr 1 "trusted.overlay.whiteout.x" "y" None]
    /\ overlayLookup 0 10 "x" st1 = Done (None, false, Some ENOENT) st2
    /\ MemFS.children (MemFS.node (world st2) 2) !! "x" = Some 3.
Proof.
  intros st.
  edestruct (overlayRemove_whiteout_then_lookup 0 (NewDirent 10 "/") (NewDirent 11 "x") 10 st
              (world st) 11 1 1 (world st) [] 1
              (snd (MemFS.Setxattr 1 "trusted.overlay.whiteout.x" "y" (world st)))
              None (Some ENOENT)
              (snd (MemFS.Setxattr 1 "trusted.overlay.whiteout.x" "y" (world st)))
              (snd (MemFS.Setxattr 1 "trusted.overlay.whiteout.x" "y" (world st))))
    as (st1 & st2 & evs2 & Hrm & Hw & Hlog & Hlook & Hw2 & Hlog2 & Hups); try calc.
  exists st1, st2. split; [exact Hrm|]. split; [exact Hlog|]. split; [exact Hlook|].
  vm_compute in Hrm. injection Hrm as <-.
  vm_compute in Hlook. injection Hlook as <-.
  vm_compute. reflexivity.
Defined.

(** C7 as stated does not hold: when the upper layer answers absent names
    with negative Dirents, the lookup that follows the removal of "x" returns
    a negative Dirent and no error, not the not-found error. *)
Lemma overlayRemove_then_lookup_negative :
  let st := MemFS.start (MemFS.tree ∅ ∅ {[ 1 ]} ∅) in
  lowerExists (entries (world st) !!! 1) = true
  /\ exists st1 st2,
       overlayRemove 0 (NewDirent 10 "/") (NewDirent 11 "x") st = Done None st1
       /\ overlayLookup 0 10 "x" st1
          = Done (Some (NewNegativeDirent "x"), false, None) st2.
Proof.
  intros st. split; [reflexivity|].
  eexists _, _. split; vm_compute; reflexivity.
Qed.

(** ** Remove, then lookup, on the in-memory layer *)

Lemma node_setNode (i : ino) (n : MemFS.Node) (w : World MemFS.t) :
  MemFS.node (MemFS.setNode i n w) i = n.
Proof. unfold MemFS.node, MemFS.setNode; simpl. apply lookup_total_insert_eq. Qed.

Lemma node_setNode_ne (i j : ino) (n : MemFS.Node) (w : World MemFS.t) :
  i <> j -> MemFS.node (MemFS.setNode i n w) j = MemFS.node w j.
Proof. intros H. unfold MemFS.node, MemFS.setNode; simpl. apply lookup_total_insert_ne, H. Qed.

(** On the in-memory layer the hypotheses of the statement above hold for
    every tree in which the parent has its upper directory and the upper
    directory binds the name exactly when the child has an upper
    counterpart: the marker is written, the following lookup answers
    not-found (a negative Dirent if the upper directory answers so), and
    every other directory, the lower one among them, is as it was. *)
Theorem MemFS_remove_then_lookup
    (w : World MemFS.t) (o : eid) (parent child : Dirent) (pi ci : ino) (ce : eid) (u : ino) :
  let name := d_name child in
  d_Inode parent = Some pi ->
  i_overlay (inodes w !!! pi) = Some o ->
  upper (entries w !!! o) = Some u ->
  d_Inode child = Some ci ->
  i_overlay (inodes w !!! ci) = Some ce ->
  lowerExists (entries w !!! ce) = true ->
  (upper (entries w !!! ce) <> None <-> MemFS.children (MemFS.node w u) !! name <> None) ->
  exists st1 st2,
    overlayRemove o parent child (MemFS.start w) = Done None st1
    /\ MemFS.xattrs (MemFS.node (world st1) u) !! XattrOverlayWhiteout name = Some "y"
    /\ overlayLookup o pi name st1
       = Done (if bool_decide (u ∈ MemFS.negative (fs w))
               then (Some (NewNegativeDirent name), false, None)
               else (None, false, Some ENOENT)) st2
    /\ (forall l, l <> u -> MemFS.node (world st2) l = MemFS.node w l).
Proof.
  intros name Hp Hpo Hu Hc Hce Hlow Hcons. unfold name in *. clear name.
  set (n := MemFS.node w u).
  set (w2 := match upper (entries w !!! ce) with
             | Some _ => MemFS.setNode u (MemFS.mkNode (delete (d_name child) (MemFS.children n))
                                            (MemFS.xattrs n) (MemFS.mode n)) w
             | None => w
             end).
  set (evs := match upper (entries w !!! ce) with
              | Some _ =>
                if bool_decide (sa_Type (i_StableAttr (inodes w !!! ci)) = Directory)
                then [EvRemoveDirectory u (d_name child) None] else [EvRemove u (d_name child) None]
              | None => []
              end).
  set (n2 := MemFS.node w2 u).
  set (w3 := MemFS.setNode u (MemFS.mkNode (MemFS.children n2)
                                (<[XattrOverlayWhiteout (d_name child) := "y"]> (MemFS.xattrs n2))
                                (MemFS.mode n2)) w2).
  assert (Hent2 : entries w2 = entries w /\ inodes w2 = inodes w /\
                  MemFS.negative (fs w2) = MemFS.negative (fs w)).
  { subst w2. destruct (upper (entries w !!! ce)); repeat split. }
  destruct Hent2 as (He2 & Hi2 & Hn2).
  assert (Hgone : MemFS.children n2 !! d_name child = None).
  { subst n2 w2. destruct (upper (entries w !!! ce)) as [cu|] eqn:Hcu.
    - rewrite node_setNode. simpl. apply lookup_delete_eq.
    - destruct (MemFS.children (MemFS.node w u) !! d_name child) eqn:E; [|reflexivity].
      exfalso. apply Hcons; [|reflexivity]. fold n in E. unfold n in E. congruence. }
  set (found := if bool_decide (u ∈ MemFS.negative (fs w))
                then Some (NewNegativeDirent (d_name child)) else None).
  set (err := if bool_decide (u ∈ MemFS.negative (fs w)) then None else Some ENOENT).
  set (L := log (MemFS.start w) ++ [EvCopyUp parent None] ++ evs
            ++ [EvSetxattr u (XattrOverlayWhiteout (d_name child)) "y" None]).
  assert (Hrm : overlayRemove o parent child (MemFS.start w)
                = Done None {| world := w3; log := L |}).
  { apply (overlayRemove_run o parent child (MemFS.start w) w ci ce u w2 evs u None w3).
    - simpl. unfold MemFS.copyUp. rewrite Hp, Hpo, Hu. reflexivity.
    - exact Hc.
    - exact Hce.
    - exact Hlow.
    - exact Hu.
    - unfold upperRemoval. subst w2 evs.
      destruct (upper (entries w !!! ce)) as [cu|] eqn:Hcu; [|reflexivity].
      assert (Hsome : MemFS.children (MemFS.node w u) !! d_name child <> None).
      { apply Hcons. discriminate. }
      simpl. unfold MemFS.Remove.
      destruct (MemFS.children (MemFS.node w u) !! d_name child) eqn:E; [|congruence].
      destruct (bool_decide (sa_Type (i_StableAttr (inodes w !!! ci)) = Directory));
        reflexivity.
    - rewrite He2. exact Hu.
    - reflexivity. }
  pose proof (overlayLookup_masked_run o pi (d_name child) {| world := w3; log := L |}
                u found err w3 w3) as Hlk.
  cbn [world log] in Hlk.
  assert (Hlook : op_Lookup u (d_name child) w3 = (found, err, w3)).
  { simpl. unfold MemFS.Lookup. subst w3. rewrite node_setNode. simpl.
    rewrite Hgone, Hn2. subst found err.
    destruct (bool_decide (u ∈ MemFS.negative (fs w))); reflexivity. }
  assert (Habs : absent found err = true).
  { subst found err. destruct (bool_decide (u ∈ MemFS.negative (fs w))); reflexivity. }
  assert (Hget : op_Getxattr u (XattrOverlayWhiteout (d_name child)) w3 = ("y", None, w3)).
  { simpl. unfold MemFS.Getxattr. subst w3. rewrite node_setNode. simpl.
    rewrite lookup_insert_eq. reflexivity. }
  assert (Hu3 : upper (entries w3 !!! o) = Some u).
  { subst w3. simpl. rewrite He2. exact Hu. }
  specialize (Hlk Hu3 Hlook Habs Hget).
  exists {| world := w3; log := L |},
         {| world := w3;
            log := L ++ EvLookup u (d_name child) found err :: released found
                   ++ [EvGetxattr u (XattrOverlayWhiteout (d_name child)) "y" None] |}.
  split; [exact Hrm|]. cbn [world]. split.
  { subst w3. rewrite node_setNode. simpl. apply lookup_insert_eq. }
  split.
  { rewrite Hlk. subst found.
    destruct (bool_decide (u ∈ MemFS.negative (fs w))); reflexivity. }
  intros l Hl. cbn [world]. subst w3. rewrite node_setNode_ne by congruence.
  subst w2. destruct (upper (entries w !!! ce)); [|reflexivity].
  apply node_setNode_ne. congruence.
Qed.

(** * More properties

    ** What overlayLookup returns *)

Ltac red_dirent := cbn [d_Inode d_name].

Section LookupResults.
Context {F : Type} `{!InodeOperations F, !MountSourceOperations F, !OverlayDeps F}.

(** Every path of overlayLookup that returns, at once. *)
Lemma overlayLookup_results
    (parent : eid) (inode : ino) (name : string) (st : State F) (r : LookupResult)
    (st' : State F) :
  overlayLookup parent inode name st = Done r st' ->
  exists evs, log st' = log st ++ evs /\ lookupResultOk name (world st') evs r.
Proof.
  unfold overlayLookup, overlayLookup_lower, overlayLookup_merge,
    newOverlayEntry, newOverlayInode.
  destruct (upper (entries (world st) !!! parent)) as [pu|] eqn:Hu;
  destruct (lower (entries (world st) !!! parent)) as [pl|] eqn:Hl.
  all: crunch.
  all: try rewrite !entries_withEntry; crunch.
  all: intros Hrun; try discriminate Hrun; injection Hrun as <- <-.
  all: eexists; cbn [log]; rewrite <- ?app_assoc; (split; [reflexivity|]).
  all: unfold lookupResultOk, NewDirent, NewNegativeDirent; cbv beta iota; cbn [world].
  all: try match goal with
           | H : unhandled ?o = true |- _ => destruct o; [|discriminate H]
           end.
  all: red_dirent; cbv beta iota; cbn [fst snd].
  all: first
    [ (* an error *)
      split; [reflexivity|]; intro; cbn [taken dropped app];
      repeat case_bool_decide; simplify_eq; lia
    | (* a negative Dirent *)
      split; [reflexivity|]; split; [reflexivity|]; intro; cbn [taken dropped app];
      repeat case_bool_decide; simplify_eq; lia
    | (* a merged Dirent *)
      split; [reflexivity|]; eexists;
      (split; [rewrite inodes_withInode; reflexivity|]);
      rewrite entries_withInode, entries_withEntry; cbv zeta;
      cbn [upper lower lowerExists];
      (split; [first [left; discriminate | right; discriminate]|]);
      (split; [first [ symmetry; apply bool_decide_eq_true_2; discriminate
                     | symmetry; apply bool_decide_eq_false_2; intros H; apply H; reflexivity ]|]);
      (split; [intros; first [reflexivity | congruence]|]);
      intro; unfold owes; cbn [taken dropped app];
      repeat case_bool_decide; simplify_eq; lia
    | idtac ].
Qed.
(** X1.  Whenever overlayLookup returns, it returns exactly one of a Dirent
    and an error; the Dirent bears the name asked for; and the provenance
    flag is set only together with a Dirent that is not negative. *)
Theorem overlayLookup_dirent_or_error
    (parent : eid) (inode : ino) (name : string) (st : State F)
    (d : option Dirent) (inUpper : bool) (err : option error) (st' : State F) :
  overlayLookup parent inode name st = Done (d, inUpper, err) st' ->
  (d = None <-> err <> None)
  /\ (forall x, d = Some x -> d_name x = name)
  /\ (inUpper = true -> exists x, d = Some x /\ IsNegative x = false).
Proof.
  intros Hrun.
  apply overlayLookup_results in Hrun as (evs & _ & Hok).
  unfold lookupResultOk in Hok.
  destruct d as [x|], err as [e|]; try contradiction.
  - destruct (d_Inode x) as [oi|] eqn:Hx.
    + destruct Hok as (Hname & _).
      repeat split; try congruence.
      intros _. exists x. split; [reflexivity|]. unfold IsNegative. rewrite Hx. reflexivity.
    + destruct Hok as (-> & -> & _).
      repeat split; try congruence. intros; simplify_eq. reflexivity.
  - destruct Hok as (-> & _). repeat split; try congruence; try discriminate.
Qed.

(** X2.  The entry overlayLookup builds keeps the invariant of entries: it has
    an upper or a lower counterpart; the provenance flag says whether it has
    an upper one; and a lower counterpart is only ever recorded together
    with lowerExists. *)
Theorem overlayLookup_entry_invariant
    (parent : eid) (inode : ino) (name : string) (st : State F)
    (d : Dirent) (inUpper : bool) (err : option error) (st' : State F) (oi : ino) :
  overlayLookup parent inode name st = Done (Some d, inUpper, err) st' ->
  d_Inode d = Some oi ->
  exists en,
    i_overlay (inodes (world st') !!! oi) = Some en
    /\ let e := entries (world st') !!! en in
       (upper e <> None \/ lower e <> None)
       /\ inUpper = bool_decide (upper e <> None)
       /\ (lower e <> None -> lowerExists e = true).
Proof.
  intros Hrun Hd.
  apply overlayLookup_results in Hrun as (evs & _ & Hok).
  unfold lookupResultOk in Hok. destruct err; [contradiction|]. rewrite Hd in Hok.
  destruct Hok as (_ & en & Hen & H1 & H2 & H3 & _).
  exists en. auto.
Qed.

(** X3.  overlayLookup keeps the count of Inode references: when it returns an
    error or a negative Dirent it has dropped every reference it took; when
    it returns a merged Dirent the references it still holds are exactly
    those its entry records, one for the upper and one for the lower
    counterpart. *)
Theorem overlayLookup_references
    (parent : eid) (inode : ino) (name : string) (st : State F)
    (r : LookupResult) (st' : State F) :
  overlayLookup parent inode name st = Done r st' ->
  exists evs,
    log st' = log st ++ evs
    /\ forall i,
         taken i evs
         = dropped i evs
           + match fst (fst r) ≫= d_Inode with
             | Some oi =>
               match i_overlay (inodes (world st') !!! oi) with
               | Some en =>
                 owes (upper (entries (world st') !!! en)) i
                 + owes (lower (entries (world st') !!! en)) i
               | None => 0
               end
             | None => 0
             end.
Proof.
  intros Hrun.
  apply overlayLookup_results in Hrun as (evs & Hlog & Hok).
  exists evs. split; [exact Hlog|]. intros i.
  unfold lookupResultOk in Hok.
  destruct r as [[[d|] inUpper] [e|]]; try contradiction; cbn [fst snd mbind option_bind].
  - destruct (d_Inode d) as [oi|].
    + destruct Hok as (_ & en & Hen & _ & _ & _ & Hbal). rewrite Hen, Hbal. lia.
    + destruct Hok as (_ & _ & Hbal). rewrite Hbal. lia.
  - destruct Hok as (_ & Hbal). rewrite Hbal. lia.
Qed.

(** X4.  An error of the upper layer other than not-found ends the lookup: it
    is returned as it is, after the one call, with no reference taken, the
    whiteout not read and the lower layer not asked. *)
Theorem overlayLookup_upper_error
    (parent : eid) (inode : ino) (name : string) (st : State F)
    (pu : ino) (child : option Dirent) (e : error) (wA : World F) :
  upper (entries (world st) !!! parent) = Some pu ->
  op_Lookup pu name (world st) = ((child, Some e), wA) ->
  e <> ENOENT ->
  overlayLookup parent inode name st
  = Done (None, false, Some e)
         {| world := wA; log := log st ++ [EvLookup pu name child (Some e)] |}.
Proof.
  intros Hu Hlook He. unfold overlayLookup. run.
  unfold unhandled. rewrite (bool_decide_eq_false_2 _ He). reflexivity.
Qed.

(** X5.  An error of the lower layer other than not-found, met after the upper
    layer gave a match: the reference taken on the upper Inode is dropped
    before the error is returned. *)
Theorem overlayLookup_lower_error
    (parent : eid) (inode : ino) (name : string) (st : State F)
    (pu pl : ino) (uc : Dirent) (uerr : option error) (wA : World F)
    (buf : string) (gerr : option error) (wB : World F)
    (lc : option Dirent) (e : error) (w2 : World F) (ui : ino) :
  let p := entries (world st) !!! parent in
  upper p = Some pu ->
  lower p = Some pl ->
  op_Lookup pu name (world st) = ((Some uc, uerr), wA) ->
  unhandled uerr = false ->
  d_Inode uc = Some ui ->
  op_Getxattr pu (XattrOverlayWhiteout name) wA = ((buf, gerr), wB) ->
  ~ (gerr = None /\ buf = "y") ->
  op_Lookup pl name wB = ((lc, Some e), w2) ->
  e <> ENOENT ->
  overlayLookup parent inode name st
  = Done (None, false, Some e)
         {| world := w2;
            log := log st
                   ++ [EvLookup pu name (Some uc) uerr; EvIncRef ui; EvDirentDecRef uc;
                       EvGetxattr pu (XattrOverlayWhiteout name) buf gerr;
                       EvLookup pl name lc (Some e); EvDecRef ui] |}.
Proof.
  intros p Hu Hl Hulook Huerr Huc Hget Hnw Hllook He. subst p.
  destruct uc as [uci ucn]. cbn [d_Inode] in Huc. subst uci.
  pose proof (not_whiteout _ _ Hnw) as Hnw'.
  unfold overlayLookup. run. unfold overlayLookup_lower. run.
  unfold unhandled. rewrite (bool_decide_eq_false_2 _ He). run.
  rewrite <- !app_assoc. reflexivity.
Qed.

(** X6.  An upper and a lower match whose types disagree (and are not both
    directories): the upper match wins alone.  No reference is taken on the
    lower Inode, the upper Inode keeps its own stable attributes, and the
    entry records neither a lower counterpart nor lowerExists. *)
Theorem overlayLookup_type_mismatch
    (parent : eid) (inode : ino) (name : string) (st : State F)
    (pu pl : ino) (uc : Dirent) (uerr : option error) (wA : World F)
    (buf : string) (gerr : option error) (wB : World F)
    (lc : Dirent) (lerr : option error) (w2 : World F) (ui li : ino) :
  let p := entries (world st) !!! parent in
  upper p = Some pu ->
  lower p = Some pl ->
  op_Lookup pu name (world st) = ((Some uc, uerr), wA) ->
  unhandled uerr = false ->
  d_Inode uc = Some ui ->
  op_Getxattr pu (XattrOverlayWhiteout name) wA = ((buf, gerr), wB) ->
  ~ (gerr = None /\ buf = "y") ->
  op_Lookup pl name wB = ((Some lc, lerr), w2) ->
  unhandled lerr = false ->
  d_Inode lc = Some li ->
  let ua := i_StableAttr (inodes w2 !!! ui) in
  let la := i_StableAttr (inodes w2 !!! li) in
  sa_Type ua <> sa_Type la ->
  IsDir ua && IsDir la = false ->
  newOverlayEntry_check w2 (Some ui) None false = None ->
  exists oi en st',
    overlayLookup parent inode name st = Done (Some (NewDirent oi name), true, None) st'
    /\ i_StableAttr (inodes (world st') !!! ui) = ua
    /\ i_overlay (inodes (world st') !!! oi) = Some en
    /\ entries (world st') !!! en = mkOverlayEntry false None (Some ui)
    /\ log st' = log st
                 ++ [EvLookup pu name (Some uc) uerr; EvIncRef ui; EvDirentDecRef uc;
                     EvGetxattr pu (XattrOverlayWhiteout name) buf gerr;
                     EvLookup pl name (Some lc) lerr; EvDirentDecRef lc].
Proof.
  intros p Hu Hl Hulook Huerr Huc Hget Hnw Hllook Hlerr Hlc ua la Htype Hdir Hchk.
  subst p. destruct uc as [uci ucn], lc as [lci lcn]. cbn [d_Inode] in Huc, Hlc. subst uci lci.
  pose proof (not_whiteout _ _ Hnw) as Hnw'.
  assert (Hc : bool_decide (sa_Type ua = sa_Type la) || (IsDir ua && IsDir la) = false).
  { rewrite (bool_decide_eq_false_2 _ Htype), Hdir. reflexivity. }
  subst ua la.
  unfold overlayLookup. run.
  unfold overlayLookup_lower. run. try rewrite Hc. run.
  unfold overlayLookup_merge, newOverlayEntry, newOverlayInode. run.
  rewrite entries_withEntry. run.
  eexists _, _, _. split; [reflexivity|]. cbn [world log].
  rewrite inodes_withInode, entries_withInode, entries_withEntry.
  rewrite <- !app_assoc. repeat split.
  unfold withInode, withEntry, freshInode; cbn [inodes entries fs].
  destruct (decide (fresh (dom (inodes w2)) = ui)) as [Heq|Hne].
  - rewrite Heq, lookup_total_insert_eq. reflexivity.
  - rewrite lookup_total_insert_ne by exact Hne. reflexivity.
Qed.

End LookupResults.

(** ** Remove and rename, step by step *)

(** Every answer of a collaborator and every branch of the code, one case
    each. *)
Ltac split_call :=
  match goal with
  | |- context [op_copyUpLockedForRename ?d ?w] =>
    destruct (op_copyUpLockedForRename d w) as [[?|] ?] eqn:?
  | |- context [op_Remove ?a ?b ?w] => destruct (op_Remove a b w) as [[?|] ?] eqn:?
  | |- context [op_RemoveDirectory ?a ?b ?w] =>
    destruct (op_RemoveDirectory a b w) as [[?|] ?] eqn:?
  | |- context [op_Setxattr ?a ?b ?c ?w] => destruct (op_Setxattr a b c w) as [? ?] eqn:?
  | |- context [op_Rename ?a ?b ?c ?d ?e ?f ?w] =>
    destruct (op_Rename a b c d e f w) as [[?|] ?] eqn:?
  | |- context [op_readdirOne ?d ?w] => destruct (op_readdirOne d w) as [[? [?|]] ?] eqn:?
  | |- context [op_Listxattr ?a ?w] => destruct (op_Listxattr a w) as [[? ?] ?] eqn:?
  | |- context [op_check ?a ?p ?w] => destruct (op_check a p w) as [? ?] eqn:?
  end.

Ltac split_branch :=
  match goal with
  | |- context [match ?x with Some _ => _ | None => _ end] => destruct x eqn:?
  | |- context [if ?b then _ else _] => destruct b eqn:?
  end.

Ltac paths := repeat first [ progress run | split_call | split_branch ].

Section Steps.
Context {F : Type} `{!InodeOperations F, !MountSourceOperations F, !OverlayDeps F}.

Lemma overlayRename_unfold (o : eid) (oldParent renamed newParent : Dirent)
    (newName : string) (replacement : bool) :
  overlayRename o oldParent renamed newParent newName replacement
  = (n1 <- overlayIsNil renamed ;;
     n2 <- (if n1 then ret true else overlayIsNil newParent) ;;
     n3 <- (if n2 then ret true else overlayIsNil oldParent) ;;
     if n3 then ret (Some EXDEV)
     else
       r <- overlayRename_replaced newParent newName replacement ;;
       match r with
       | inl err => ret err
       | inr replacement =>
         overlayRename_tail o oldParent renamed newParent newName replacement
       end).
Proof. reflexivity. Qed.

Lemma overlayRename_tail_steps (o : eid) (oldParent renamed newParent : Dirent)
    (newName : string) (flag : bool) (st : State F) (res : option error) (st' : State F) :
  overlayRename_tail o oldParent renamed newParent newName flag st = Done res st' ->
  exists evs, log st' = log st ++ evs /\ renameSteps renamed newParent newName flag evs res.
Proof.
  unfold overlayRename_tail. paths.
  all: intros Hrun; try discriminate Hrun; injection Hrun as <- <-.
  all: eexists; cbn [log]; rewrite <- ?app_assoc; (split; [reflexivity|]).
  all: cbn [app]; constructor.
Qed.

(** What the [if replacement] block of overlayRename does: it only reads;
    it leaves at once with an error, or hands on a flag that it can clear
    but not set. *)
Lemma overlayRename_replaced_reads (newParent : Dirent) (newName : string)
    (replacement : bool) (st : State F) (r : option error + bool) (st' : State F) :
  overlayRename_replaced newParent newName replacement st = Done r st' ->
  exists evs,
    log st' = log st ++ evs
    /\ forallb (fun ev => negb (mutation ev)) evs = true
    /\ (replacement = false -> evs = [])
    /\ match r with
       | inl err => err <> None
       | inr flag => flag = true -> replacement = true
       end.
Proof.
  unfold overlayRename_replaced. destruct replacement.
  2: { intros Hrun. injection Hrun as <- <-. exists []. rewrite app_nil_r. auto. }
  repeat first [ progress run
               | match goal with
                 | |- context [overlayLookup ?a ?b ?c ?s] =>
                   let H := fresh "Hpaths" in
                   pose proof (overlayLookup_paths a b c s) as H; cbv zeta in H;
                   destruct (overlayLookup a b c s) as [[[? ?] ?] ?|?] eqn:?;
                   [destruct H as (? & ? & ? & _)|clear H]
                 end
               | split_call
               | split_branch ].
  all: intros Hrun; try discriminate Hrun; injection Hrun as <- <-.
  all: cbn [log];
       try match goal with H : log _ = _ ++ _ |- _ => rewrite H end;
       rewrite <- ?app_assoc; eexists; (split; [reflexivity|]).
  all: rewrite ?forallb_app, ?app_nil_r; cbn [forallb mutation negb andb];
       repeat match goal with H : forallb _ _ = true |- _ => rewrite H end;
       cbn [andb]; repeat split; try discriminate; try congruence; auto.
Qed.


(** Three Dirents with overlay Inodes pass the first test of overlayRename. *)
Lemma overlayRename_enters (o : eid) (oldParent renamed newParent : Dirent)
    (newName : string) (replacement : bool) (st : State F) (ri ni oi : ino) :
  d_Inode renamed = Some ri -> i_overlay (inodes (world st) !!! ri) <> None ->
  d_Inode newParent = Some ni -> i_overlay (inodes (world st) !!! ni) <> None ->
  d_Inode oldParent = Some oi -> i_overlay (inodes (world st) !!! oi) <> None ->
  overlayRename o oldParent renamed newParent newName replacement st
  = (r <- overlayRename_replaced newParent newName replacement ;;
     match r with
     | inl err => ret err
     | inr replacement =>
       overlayRename_tail o oldParent renamed newParent newName replacement
     end) st.
Proof.
  intros Hr Hro Hn Hno Ho Hoo. rewrite overlayRename_unfold.
  unfold bind at 1 2 3. unfold overlayIsNil. run.
  rewrite ?bool_decide_eq_false_2 by assumption. reflexivity.
Qed.

(** X7.  overlayRename refuses with EXDEV, before it reads or changes
    anything, when the Inode of the renamed Dirent, of the new parent or of
    the old parent is not an overlay Inode. *)
Theorem overlayRename_outside_overlay
    (o : eid) (oldParent renamed newParent : Dirent) (newName : string)
    (replacement : bool) (st : State F) (ri ni oi : ino) :
  d_Inode renamed = Some ri ->
  d_Inode newParent = Some ni ->
  d_Inode oldParent = Some oi ->
  i_overlay (inodes (world st) !!! ri) = None
  \/ i_overlay (inodes (world st) !!! ni) = None
  \/ i_overlay (inodes (world st) !!! oi) = None ->
  overlayRename o oldParent renamed newParent newName replacement st
  = Done (Some EXDEV) st.
Proof.
  intros Hr Hn Ho Hnil. unfold overlayRename, overlayIsNil. run.
  destruct (bool_decide (i_overlay (inodes (world st) !!! ri) = None)) eqn:E1; run;
    [reflexivity|].
  destruct (bool_decide (i_overlay (inodes (world st) !!! ni) = None)) eqn:E2; run;
    [reflexivity|].
  destruct (bool_decide (i_overlay (inodes (world st) !!! oi) = None)) eqn:E3; run;
    [reflexivity|].
  apply bool_decide_eq_false in E1, E2, E3. tauto.
Qed.

(** X8.  The order of the steps of overlayRename.  Whatever the layers
    answer, a run that returns first only reads (the re-resolution of the
    replaced name and the listing of a replaced directory), and then either
    stops with an error, nothing changed, or goes through copy-up of the
    renamed Dirent, copy-up of the new parent, Rename and the write of the
    marker in this order, each only if the one before succeeded; the flag
    handed to Rename is set only if the caller set it. *)
Theorem overlayRename_steps
    (o : eid) (oldParent renamed newParent : Dirent) (newName : string)
    (replacement : bool) (st : State F) (res : option error) (st' : State F) :
  overlayRename o oldParent renamed newParent newName replacement st = Done res st' ->
  exists reads steps,
    log st' = log st ++ reads ++ steps
    /\ forallb (fun ev => negb (mutation ev)) reads = true
    /\ (replacement = false -> reads = [])
    /\ ((steps = [] /\ res <> None)
        \/ exists flag, (flag = true -> replacement = true)
             /\ renameSteps renamed newParent newName flag steps res).
Proof.
  rewrite overlayRename_unfold. unfold overlayIsNil.
  repeat first
    [ progress run
    | match goal with
      | |- context [overlayRename_replaced ?a ?b ?c ?s] =>
        let H := fresh "Hreads" in
        pose proof (overlayRename_replaced_reads a b c s) as H;
        destruct (overlayRename_replaced a b c s) as [[?|?] ?|?] eqn:?;
        [specialize (H _ _ eq_refl) as (? & ? & ? & ? & ?)
        |specialize (H _ _ eq_refl) as (? & ? & ? & ? & ?)
        |clear H]
      | |- context [overlayRename_tail ?a ?b ?c ?d ?e ?f ?s] =>
        let H := fresh "Htail" in
        pose proof (overlayRename_tail_steps a b c d e f s) as H;
        destruct (overlayRename_tail a b c d e f s) as [? ?|?] eqn:?;
        [specialize (H _ _ eq_refl) as (? & ? & ?)|clear H]
      | |- context [if ?b then _ else _] => destruct b eqn:?
      | |- context [match ?x with Some _ => _ | None => _ end] => destruct x eqn:?
      end ].
  all: intros Hrun; try discriminate Hrun; injection Hrun as <- <-.
  all: try (exists [], []; rewrite !app_nil_r;
            repeat split; [left; split; [reflexivity|discriminate]]).
  all: try (eexists _, []; rewrite app_nil_r; split; [eassumption|];
            split; [assumption|]; split; [assumption|];
            left; split; [reflexivity|assumption]).
  all: eexists _, _; split;
       [match goal with
        | H1 : log ?s1 = log ?s0 ++ ?t, H0 : log ?s0 = log ?s ++ ?r |- log ?s1 = _ =>
          rewrite H1, H0, <- app_assoc; reflexivity
        end|];
       split; [assumption|]; split; [assumption|];
       right; eexists; split; eassumption.
Qed.

(** X9.  overlayRename asked to replace, when the replaced name resolves to a
    Dirent that is negative or not a directory.  The replacement flag
    handed to the upper layer's Rename is the provenance the lookup gave:
    it is cleared when the replaced file is not in the upper layer.  The
    replaced Dirent is released before the first copy-up. *)
Theorem overlayRename_flag
    (o : eid) (oldParent renamed newParent : Dirent) (newName : string)
    (st : State F) (ri ni oi : ino) (ne : eid)
    (rd : Dirent) (inUpper : bool) (st1 : State F)
    (res : option error) (st' : State F) :
  d_Inode renamed = Some ri -> i_overlay (inodes (world st) !!! ri) <> None ->
  d_Inode newParent = Some ni -> i_overlay (inodes (world st) !!! ni) = Some ne ->
  d_Inode oldParent = Some oi -> i_overlay (inodes (world st) !!! oi) <> None ->
  overlayLookup ne ni newName st = Done (Some rd, inUpper, None) st1 ->
  match d_Inode rd with
  | Some x => IsDir (i_StableAttr (inodes (world st1) !!! x)) = false
  | None => True
  end ->
  overlayRename o oldParent renamed newParent newName true st = Done res st' ->
  exists steps,
    log st' = log st1 ++ EvDirentDecRef rd :: steps
    /\ renameSteps renamed newParent newName inUpper steps res.
Proof.
  intros Hr Hro Hn Hno Ho Hoo Hlook Hfile.
  rewrite (overlayRename_enters o oldParent renamed newParent newName true st ri ni oi)
    by (assumption || congruence).
  unfold overlayRename_replaced.
  destruct rd as [[x|] rn]; cbn [d_Inode] in Hfile; run.
  all: destruct inUpper; run.
  all: intros Hrun; apply overlayRename_tail_steps in Hrun as (steps & Hlog & Hsteps).
  all: exists steps; (split; [|exact Hsteps]).
  all: rewrite Hlog; cbn [log]; rewrite <- app_assoc; reflexivity.
Qed.

(** X10.  overlayRename asked to replace, when the replaced name is gone by
    the time it is resolved again (ENOENT): the rename goes on, nothing is
    released, and the upper layer's Rename is still told that it
    replaces. *)
Theorem overlayRename_stale_replaced
    (o : eid) (oldParent renamed newParent : Dirent) (newName : string)
    (st : State F) (ri ni oi : ino) (ne : eid)
    (rd : option Dirent) (inUpper : bool) (st1 : State F)
    (res : option error) (st' : State F) :
  d_Inode renamed = Some ri -> i_overlay (inodes (world st) !!! ri) <> None ->
  d_Inode newParent = Some ni -> i_overlay (inodes (world st) !!! ni) = Some ne ->
  d_Inode oldParent = Some oi -> i_overlay (inodes (world st) !!! oi) <> None ->
  overlayLookup ne ni newName st = Done (rd, inUpper, Some ENOENT) st1 ->
  overlayRename o oldParent renamed newParent newName true st = Done res st' ->
  exists steps,
    log st' = log st1 ++ steps
    /\ renameSteps renamed newParent newName true steps res.
Proof.
  intros Hr Hro Hn Hno Ho Hoo Hlook.
  rewrite (overlayRename_enters o oldParent renamed newParent newName true st ri ni oi)
    by (assumption || congruence).
  unfold overlayRename_replaced. run.
  intros Hrun; apply overlayRename_tail_steps in Hrun as (steps & Hlog & Hsteps).
  exists steps. split; assumption.
Qed.

(** X11.  A rename that goes through.  With no replacement asked, both
    copy-ups and the upper layer's Rename successful: a marker is written
    for the old name in the old parent's upper directory exactly when the
    entry of the renamed Dirent has lowerExists set, and its answer is the
    result; else the result is nil and nothing more is done. *)
Theorem overlayRename_leaves_marker
    (o : eid) (oldParent renamed newParent : Dirent) (newName : string)
    (st : State F) (ri ni oi : ino) (w1 w2 w3 : World F)
    (u : ino) (oe ne re : eid) :
  d_Inode renamed = Some ri -> i_overlay (inodes (world st) !!! ri) <> None ->
  d_Inode newParent = Some ni -> i_overlay (inodes (world st) !!! ni) <> None ->
  d_Inode oldParent = Some oi -> i_overlay (inodes (world st) !!! oi) <> None ->
  op_copyUpLockedForRename renamed (world st) = (None, w1) ->
  op_copyUpLockedForRename newParent w1 = (None, w2) ->
  upper (entries w2 !!! o) = Some u ->
  i_overlay (inodes w2 !!! oi) = Some oe ->
  i_overlay (inodes w2 !!! ni) = Some ne ->
  let from := upper (entries w2 !!! oe) in
  let to := upper (entries w2 !!! ne) in
  op_Rename u from (d_name renamed) to newName false w2 = (None, w3) ->
  i_overlay (inodes w3 !!! ri) = Some re ->
  let calls := [EvCopyUp renamed None; EvCopyUp newParent None;
                EvRename u from (d_name renamed) to newName false None] in
  let marker := XattrOverlayWhiteout (d_name renamed) in
  (lowerExists (entries w3 !!! re) = false ->
   overlayRename o oldParent renamed newParent newName false st
   = Done None {| world := w3; log := log st ++ calls |})
  /\ (forall oe' ou serr w4,
        lowerExists (entries w3 !!! re) = true ->
        i_overlay (inodes w3 !!! oi) = Some oe' ->
        upper (entries w3 !!! oe') = Some ou ->
        op_Setxattr ou marker "y" w3 = (serr, w4) ->
        overlayRename o oldParent renamed newParent newName false st
        = Done serr {| world := w4;
                       log := log st ++ calls ++ [EvSetxattr ou marker "y" serr] |}).
Proof.
  intros Hr Hro Hn Hno Ho Hoo Hc1 Hc2 Hu Hoe Hne from to Hren Hre calls marker.
  subst from to calls marker.
  rewrite (overlayRename_enters o oldParent renamed newParent newName false st ri ni oi)
    by assumption.
  unfold overlayRename_replaced, overlayRename_tail. split.
  - intros Hlow. run. rewrite <- !app_assoc. reflexivity.
  - intros oe' ou serr w4 Hlow Hoe' Hou Hset. run. rewrite <- !app_assoc. reflexivity.
Qed.

(** X12.  The order of the steps of overlayRemove.  Whatever the layers
    answer, a run that returns made the copy-up of the parent, then at most
    one removal in the upper layer, then at most one write of the marker,
    each only if the one before succeeded, and nothing else; its result is
    the error of the step that failed, or the answer of the last step. *)
Theorem overlayRemove_steps
    (o : eid) (parent child : Dirent) (st : State F)
    (res : option error) (st' : State F) :
  overlayRemove o parent child st = Done res st' ->
  exists steps,
    log st' = log st ++ steps /\ removeSteps parent (d_name child) steps res.
Proof.
  unfold overlayRemove. paths.
  all: intros Hrun; try discriminate Hrun; injection Hrun as <- <-.
  all: eexists; cbn [log]; rewrite <- ?app_assoc; (split; [reflexivity|]).
  all: cbn [app].
  all: first
    [ apply remove_copy_failed
    | apply remove_removal_failed; constructor
    | apply remove_no_marker; first [left; reflexivity | right; constructor]
    | apply (remove_marker _ _ []); left; reflexivity
    | apply (remove_marker _ _ [_]); right; constructor ].
Qed.

(** X13.  Removing a child that never existed in the lower layer (its entry
    has an upper counterpart and lowerExists is not set) leaves no marker:
    the result is that of the removal in the upper layer, which is
    RemoveDirectory for a directory and Remove for anything else. *)
Theorem overlayRemove_upper_only
    (o : eid) (parent child : Dirent) (st : State F)
    (w1 : World F) (ci cu : ino) (ce : eid) (u : ino)
    (res : option error) (w2 : World F) :
  op_copyUpLockedForRename parent (world st) = (None, w1) ->
  d_Inode child = Some ci ->
  i_overlay (inodes w1 !!! ci) = Some ce ->
  upper (entries w1 !!! ce) = Some cu ->
  lowerExists (entries w1 !!! ce) = false ->
  upper (entries w1 !!! o) = Some u ->
  let isDir := bool_decide (sa_Type (i_StableAttr (inodes w1 !!! ci)) = Directory) in
  (if isDir then op_RemoveDirectory u (d_name child) w1 else op_Remove u (d_name child) w1)
  = (res, w2) ->
  overlayRemove o parent child st
  = Done res
      {| world := w2;
         log := log st
                ++ [EvCopyUp parent None;
                    if isDir then EvRemoveDirectory u (d_name child) res
                    else EvRemove u (d_name child) res] |}.
Proof.
  intros Hcopy Hci Hce Hcu Hlow Hu isDir Hrm. subst isDir.
  unfold overlayRemove. run.
  destruct (bool_decide (sa_Type (i_StableAttr (inodes w1 !!! ci)) = Directory)); run;
    destruct res; run; rewrite <- !app_assoc; reflexivity.
Qed.

End Steps.

(** ** Extended attributes, continued *)

Lemma prefix_refl (s : string) : String.prefix s s = true.
Proof.
  induction s as [|a s IH]; simpl; [reflexivity|].
  destruct (ascii_dec a a); [exact IH|congruence].
Qed.

Section ExtendedAttributesMore.
Context {F : Type} `{!InodeOperations F, !MountSourceOperations F, !OverlayDeps F}.

(** X14.  What overlayListxattr returns, for an entry served by the Inode [i]
    (the upper one when there is one): the names the layer lists, less
    those that the reserved prefix starts with, and the layer's error.  The
    empty name and the reserved prefix itself are never among them; and a
    name it lists is a name overlayGetxattr hands to the same Inode. *)
Theorem overlayListxattr_result
    (o : eid) (st : State F) (i : ino)
    (names : gset string) (lerr : option error) (w1 : World F) :
  (let e := entries (world st) !!! o in
   upper e = Some i \/ (upper e = None /\ lower e = Some i)) ->
  op_Listxattr i (world st) = ((names, lerr), w1) ->
  exists kept,
    overlayListxattr o st
    = Done (kept, lerr) {| world := w1; log := log st ++ [EvListxattr i names lerr] |}
    /\ (forall name, name ∈ kept <-> name ∈ names /\ HasPrefix XattrOverlayPrefix name = false)
    /\ ("" ∉ kept)
    /\ (XattrOverlayPrefix ∉ kept)
    /\ forall name, name ∈ kept ->
         overlayGetxattr o name st
         = (let '(r, w) := op_Getxattr i name (world st) in
            Done r {| world := w; log := log st ++ [EvGetxattr i name (fst r) (snd r)] |}).
Proof.
  intros He Hlist.
  exists (filter (fun name => HasPrefix XattrOverlayPrefix name = false) names).
  assert (Hk : forall name,
             name ∈ filter (fun name => HasPrefix XattrOverlayPrefix name = false) names
             <-> name ∈ names /\ HasPrefix XattrOverlayPrefix name = false).
  { intros name. rewrite elem_of_filter. tauto. }
  split; [|split; [exact Hk|split; [|split]]].
  - unfold overlayListxattr. destruct He as [Hu | [Hu Hl]]; run; reflexivity.
  - intros Hin. apply Hk in Hin as [_ Hp]. unfold HasPrefix in Hp.
    destruct XattrOverlayPrefix; simpl in Hp; discriminate Hp.
  - intros Hin. apply Hk in Hin as [_ Hp]. unfold HasPrefix in Hp.
    rewrite prefix_refl in Hp. discriminate Hp.
  - intros name Hin. apply Hk in Hin as [_ Hp].
    unfold overlayGetxattr. rewrite Hp.
    destruct He as [Hu | [Hu Hl]]; run;
      destruct (op_Getxattr i name (world st)) as [[buf gerr] w]; reflexivity.
Qed.

End ExtendedAttributesMore.

(** ** The other operations *)

Ltac opunfold :=
  unfold opBind, opRet, lift, call, note, getNow, allocEntry, opDeref, copyUp in *.

Ltac opred :=
  opunfold; munfold;
  cbn [now trace world log fst snd map app d_Inode d_name upper lower lowerExists
       i_StableAttr i_overlay i_MountSource ms_upper ms_lower] in *.

Ltac oprun := repeat first [ progress opred | use_eqn | decide_closed | progress bred ].

Lemma mountTaken_app `{Opaque} (m : msrc) (a b : list Step) :
  mountTaken m (a ++ b) = mountTaken m a + mountTaken m b.
Proof.
  induction a as [|[ev|[]] a IH]; cbn [app mountTaken]; try exact IH; [reflexivity|].
  rewrite IH. lia.
Qed.

Section Operations.
Context {F : Type} `{!Opaque}
  `{!InodeOperations F, !MountSourceOperations F, !OverlayDeps F, !LayerOperations F}.

(** X15.  overlayGetlink never hands out a Dirent.  When the layer that serves
    the entry resolves the link to a Dirent, that Dirent is released and the
    result is EACCES, whatever error the layer gave with it; when it
    resolves none, the layer's error is the result. *)
Theorem overlayGetlink_never_resolves
    (o : eid) (r : Run F) (i : ino)
    (d : option Dirent) (err : option error) (w1 : World F) :
  (let e := entries (now r) !!! o in
   upper e = Some i \/ (upper e = None /\ lower e = Some i)) ->
  op_Getlink i (now r) = ((d, err), w1) ->
  overlayGetlink o r
  = Done (None, match d with Some _ => Some EACCES | None => err end)
         {| now := w1;
            trace := trace r
                     ++ inr (CallGetlink i d err)
                        :: match d with
                           | Some x => [inl (EvDirentDecRef x)]
                           | None => []
                           end |}.
Proof.
  intros He Hget. unfold overlayGetlink.
  destruct He as [Hu | [Hu Hl]]; oprun; destruct d; oprun;
    rewrite <- ?app_assoc; reflexivity.
Qed.

(** X16.  overlayBind on a directory with no upper counterpart is refused with
    EOPNOTSUPP: the directory is not copied up, no layer is called and
    nothing changes. *)
Theorem overlayBind_without_upper
    (o : eid) (name : string) (data : BoundEndpoint) (perm : FilePermissions)
    (r : Run F) :
  upper (entries (now r) !!! o) = None ->
  overlayBind o name data perm r = Done (None, Some EOPNOTSUPP) r.
Proof.
  intros Hu. unfold overlayBind. oprun. rewrite app_nil_r. destruct r; reflexivity.
Qed.

(** X17.  A socket bound through the overlay.  One reference is taken on the
    socket's Inode and the layer's Dirent is released.  When the entry can
    be built, the Dirent returned bears the name; its Inode is a new overlay
    Inode on the mount of the socket's own Inode, whose entry has the
    socket's Inode as upper counterpart, no lower one and lowerExists not
    set.  When it cannot, the error is returned and the reference is
    dropped again. *)
Theorem overlayBind_socket
    (o : eid) (name : string) (data : BoundEndpoint) (perm : FilePermissions)
    (r : Run F) (u : ino) (d : Dirent) (i : ino) (w1 : World F) :
  upper (entries (now r) !!! o) = Some u ->
  op_Bind u name data perm (now r) = ((Some d, None), w1) ->
  d_Inode d = Some i ->
  let bound := [inr (CallBind u name data perm (Some d) None);
                inl (EvIncRef i); inl (EvDirentDecRef d)] in
  match newOverlayEntry_check w1 (Some i) None false with
  | Some x =>
    overlayBind o name data perm r
    = Done (None, Some x)
           {| now := w1; trace := trace r ++ bound ++ [inl (EvDecRef i)] |}
  | None =>
    exists oi en r',
      overlayBind o name data perm r = Done (Some (NewDirent oi name), None) r'
      /\ i_overlay (inodes (now r') !!! oi) = Some en
      /\ i_MountSource (inodes (now r') !!! oi) = i_MountSource (inodes w1 !!! i)
      /\ entries (now r') !!! en = mkOverlayEntry false None (Some i)
      /\ trace r' = trace r ++ bound
  end.
Proof.
  intros Hu Hbind Hd bound. subst bound.
  destruct (newOverlayEntry_check w1 (Some i) None false) as [x|] eqn:Hchk.
  - unfold overlayBind, newOverlayEntry.
    oprun. rewrite ?app_nil_r, <- ?app_assoc. reflexivity.
  - unfold overlayBind, newOverlayEntry, newOverlayInode.
    oprun. rewrite entries_withEntry. oprun.
    eexists _, _, _. split; [reflexivity|]. cbn [now trace].
    rewrite inodes_withInode, entries_withInode, entries_withEntry.
    cbn [i_overlay i_MountSource].
    repeat split.
    rewrite ?app_nil_r, <- ?app_assoc. reflexivity.
Qed.

(** X18.  overlayBoundEndpoint goes down through overlays stacked as lower
    layers: the endpoint is the one bound at the Inode that serves the
    entry, the only Inode asked; a depth of calls one more than the number
    of overlays passed is enough. *)
Theorem overlayBoundEndpoint_nested
    (fuel : nat) (o : eid) (path : string) (r : Run F)
    (n : nat) (i : ino) (ep : BoundEndpoint) (w1 : World F) :
  serves (now r) o n i ->
  op_BoundEndpoint i path (now r) = (ep, w1) ->
  n < fuel ->
  overlayBoundEndpoint fuel o path r
  = Done (Some ep) {| now := w1; trace := trace r ++ [inr (CallBoundEndpoint i path ep)] |}.
Proof.
  intros Hserves Hep. revert fuel.
  induction Hserves as [o u Hu | o l Hu Hl Hlo | o l lo n i Hu Hl Hlo Hserves IH];
    intros [|fuel] Hfuel; try lia; cbn [overlayBoundEndpoint].
  - oprun. rewrite app_nil_r. reflexivity.
  - oprun. rewrite !app_nil_r. reflexivity.
  - specialize (IH Hep fuel ltac:(lia)). oprun. rewrite !app_nil_r.
    destruct r as [w t]. cbn [now trace] in *. exact IH.
Qed.

(** X19.  overlayStatFS reports the overlay, not the layer: on success the
    Type of the layer's answer is replaced by the overlay's magic number
    and the rest is kept; on an error the answer is dropped for an empty
    Info. *)
Theorem overlayStatFS_result
    (o : eid) (r : Run F) (i : ino)
    (info : Info) (err : option error) (w1 : World F) :
  (let e := entries (now r) !!! o in
   upper e = Some i \/ (upper e = None /\ lower e = Some i)) ->
  op_StatFS i (now r) = ((info, err), w1) ->
  overlayStatFS o r
  = Done (match err with
          | Some x => (noInfo, Some x)
          | None => (mkInfo OVERLAYFS_SUPER_MAGIC (info_other info), None)
          end)
         {| now := w1; trace := trace r ++ [inr (CallStatFS i info err)] |}.
Proof.
  intros He Hstat. unfold overlayStatFS.
  destruct He as [Hu | [Hu Hl]]; oprun; destruct err; oprun;
    rewrite ?app_nil_r; reflexivity.
Qed.

(** X20.  A file opened to write is copied up first, and when the copy-up
    fails nothing is opened: the error is the result. *)
Theorem overlayGetFile_copy_up_failed
    (o : eid) (d : Dirent) (flags : FileFlags) (r : Run F) (e : error) (w1 : World F) :
  ff_Write flags = true ->
  op_copyUp d (now r) = (Some e, w1) ->
  overlayGetFile o d flags r
  = Done (None, Some e) {| now := w1; trace := trace r ++ [inr (CallCopyUp d (Some e))] |}.
Proof.
  intros Hw Hcopy. unfold overlayGetFile. rewrite Hw. oprun. reflexivity.
Qed.

(** X21.  A file opened on an entry that has an upper counterpart (after the
    copy-up, when it is opened to write) wraps the file the upper layer
    opens, and only that one; Pread and Pwrite are as the upper file has
    them, the other flags as the caller gave them. *)
Theorem overlayGetFile_wraps_upper
    (o : eid) (d : Dirent) (flags : FileFlags) (r : Run F)
    (w0 : World F) (u : ino) (uf : File) (w1 : World F) (f : File) (w2 : World F) :
  (if ff_Write flags then op_copyUp d (now r) else (None, now r)) = (None, w0) ->
  upper (entries w0 !!! o) = Some u ->
  op_overlayFile (Some u) flags w0 = ((Some uf, None), w1) ->
  let flags' := mkFileFlags (ff_Write flags) (ff_Pread (op_Flags uf w1))
                            (ff_Pwrite (op_Flags uf w1)) (ff_other flags) in
  let fops := mkOverlayFileOperations (Some uf) None in
  op_NewFile d flags' fops w1 = (f, w2) ->
  overlayGetFile o d flags r
  = Done (Some f, None)
         {| now := w2;
            trace := trace r
                     ++ (if ff_Write flags then [inr (CallCopyUp d None)] else [])
                     ++ [inr (CallOverlayFile (Some u) flags (Some uf) None);
                         inr (CallNewFile d flags' fops f)] |}.
Proof.
  intros Hcopy Hu Hopen flags' fops Hnew. subst flags' fops.
  unfold overlayGetFile.
  destruct (ff_Write flags); [|injection Hcopy as <-]; oprun;
    rewrite ?app_nil_r, <- ?app_assoc; reflexivity.
Qed.

(** X22.  A file opened read-only on an entry that has only a lower
    counterpart is not copied up: it wraps the file the lower layer
    opens. *)
Theorem overlayGetFile_lower_read_only
    (o : eid) (d : Dirent) (flags : FileFlags) (r : Run F)
    (l : ino) (lf : File) (w1 : World F) (f : File) (w2 : World F) :
  ff_Write flags = false ->
  upper (entries (now r) !!! o) = None ->
  lower (entries (now r) !!! o) = Some l ->
  op_overlayFile (Some l) flags (now r) = ((Some lf, None), w1) ->
  let flags' := mkFileFlags false (ff_Pread (op_Flags lf w1))
                            (ff_Pwrite (op_Flags lf w1)) (ff_other flags) in
  let fops := mkOverlayFileOperations None (Some lf) in
  op_NewFile d flags' fops w1 = (f, w2) ->
  overlayGetFile o d flags r
  = Done (Some f, None)
         {| now := w2;
            trace := trace r
                     ++ [inr (CallOverlayFile (Some l) flags (Some lf) None);
                         inr (CallNewFile d flags' fops f)] |}.
Proof.
  intros Hw Hu Hl Hopen flags' fops Hnew. subst flags' fops.
  unfold overlayGetFile. rewrite Hw in *. oprun.
  rewrite ?app_nil_r, <- ?app_assoc. reflexivity.
Qed.

(** X23.  When the copy-up of the Dirent fails, none of the setters reaches
    the upper layer.  overlaySetOwner, overlaySetTimestamps and
    overlayTruncate return the error of the copy-up; overlaySetPermissions
    only says false. *)
Theorem setters_copy_up_failed
    (o : eid) (d : Dirent) (r : Run F) (e : error) (w1 : World F)
    (f : FilePermissions) (owner : FileOwner) (ts : TimeSpec) (size : Z) :
  op_copyUp d (now r) = (Some e, w1) ->
  let r' := {| now := w1; trace := trace r ++ [inr (CallCopyUp d (Some e))] |} in
  overlaySetPermissions o d f r = Done false r'
  /\ overlaySetOwner o d owner r = Done (Some e) r'
  /\ overlaySetTimestamps o d ts r = Done (Some e) r'
  /\ overlayTruncate o d size r = Done (Some e) r'.
Proof.
  intros Hcopy r'. subst r'.
  unfold overlaySetPermissions, overlaySetOwner, overlaySetTimestamps, overlayTruncate.
  oprun. repeat split.
Qed.

(** X24.  When the copy-up of the parent fails, nothing is created:
    overlayCreateDirectory, overlayCreateLink, overlayCreateFifo and
    overlayCreateHardLink return its error, and no layer is called. *)
Theorem creation_copy_up_failed
    (o : eid) (parent : Dirent) (r : Run F) (e : error) (w1 : World F)
    (name oldname : string) (perm : FilePermissions) (target : Dirent) :
  op_copyUpLockedForRename parent (now r) = (Some e, w1) ->
  let r' := {| now := w1; trace := trace r ++ [inl (EvCopyUp parent (Some e))] |} in
  overlayCreateDirectory o parent name perm r = Done (Some e) r'
  /\ overlayCreateLink o parent oldname name r = Done (Some e) r'
  /\ overlayCreateFifo o parent name perm r = Done (Some e) r'
  /\ overlayCreateHardLink o parent target name r = Done (Some e) r'.
Proof.
  intros Hcopy r'. subst r'.
  unfold overlayCreateDirectory, overlayCreateLink, overlayCreateFifo, overlayCreateHardLink.
  oprun. repeat split.
Qed.

(** X25.  A hard link is made between upper counterparts.  The parent is
    copied up, then the target; when the copy-up of the target fails its
    error is the result and the copy-up of the parent stays; else the link
    is made in the upper directory of the entry to the upper Inode of the
    target, both as they are after the copy-ups. *)
Theorem overlayCreateHardLink_upper
    (o : eid) (parent target : Dirent) (name : string) (r : Run F)
    (w1 : World F) (terr : option error) (w2 : World F) :
  op_copyUpLockedForRename parent (now r) = (None, w1) ->
  op_copyUpLockedForRename target w1 = (terr, w2) ->
  let copies := [inl (EvCopyUp parent None); inl (EvCopyUp target terr)] in
  (forall e, terr = Some e ->
     overlayCreateHardLink o parent target name r
     = Done (Some e) {| now := w2; trace := trace r ++ copies |})
  /\ (forall u ti te res w3,
        terr = None ->
        upper (entries w2 !!! o) = Some u ->
        d_Inode target = Some ti ->
        i_overlay (inodes w2 !!! ti) = Some te ->
        op_CreateHardLink u (upper (entries w2 !!! te)) name w2 = (res, w3) ->
        overlayCreateHardLink o parent target name r
        = Done res
            {| now := w3;
               trace := trace r ++ copies
                        ++ [inr (CallCreateHardLink u (upper (entries w2 !!! te)) name res)] |}).
Proof.
  intros Hc1 Hc2 copies. subst copies. unfold overlayCreateHardLink. split.
  - intros e ->. oprun. rewrite ?app_nil_r, <- ?app_assoc. reflexivity.
  - intros u ti te res w3 -> Hu Hti Hte Hlink. oprun.
    rewrite ?app_nil_r, <- ?app_assoc. reflexivity.
Qed.

(** X26.  overlayWriteOut writes out the upper counterpart only.  It returns
    for every entry; for one that has no upper counterpart the result is
    nil, no layer is called and nothing changes, the lower Inode is never
    written out. *)
Theorem overlayWriteOut_upper_only (o : eid) (r : Run F) :
  exists res r',
    overlayWriteOut o r = Done res r'
    /\ match upper (entries (now r) !!! o) with
       | Some u =>
         op_WriteOut u (now r) = (res, now r')
         /\ trace r' = trace r ++ [inr (CallWriteOut u res)]
       | None => res = None /\ r' = r
       end.
Proof.
  unfold overlayWriteOut. oprun.
  destruct (upper (entries (now r) !!! o)) as [u|]; oprun.
  - destruct (op_WriteOut u (now r)) as [res w] eqn:Hw.
    eexists _, _. split; [reflexivity|]. cbn [now trace].
    rewrite app_nil_r. split; reflexivity.
  - eexists _, _. split; [reflexivity|]. split; [reflexivity|].
    rewrite app_nil_r. destruct r; reflexivity.
Qed.

(** X27.  What the overlay mount asks of its two mounts.  SaveInodeMapping
    hands each layer's mount the counterpart of that layer, the upper one
    first, with the path it was given, and passes over a counterpart that
    is missing; ResetInodeMappings reaches both mounts, the upper one
    first; Keep is decided by the upper mount alone. *)
Theorem overlay_mount_delegates
    (o : overlayMountSourceOperations) (inode : ino) (path : string) (dirent : Dirent)
    (r : Run F) (en : eid) :
  i_overlay (inodes (now r) !!! inode) = Some en ->
  let e := entries (now r) !!! en in
  (exists w',
     SaveInodeMapping o inode path r
     = Done tt
         {| now := w';
            trace := trace r
                     ++ match upper e with
                        | Some u => [inr (CallSaveInodeMapping (ms_upper o) u path)]
                        | None => []
                        end
                     ++ match lower e with
                        | Some l => [inr (CallSaveInodeMapping (ms_lower o) l path)]
                        | None => []
                        end |})
  /\ (exists w',
        ResetInodeMappings o r
        = Done tt
            {| now := w';
               trace := trace r ++ [inr (CallResetInodeMappings (ms_upper o));
                                    inr (CallResetInodeMappings (ms_lower o))] |})
  /\ Keep o dirent r
     = Done (fst (op_Keep (ms_upper o) dirent (now r)))
         {| now := snd (op_Keep (ms_upper o) dirent (now r));
            trace := trace r
                     ++ [inr (CallKeep (ms_upper o) dirent
                                (fst (op_Keep (ms_upper o) dirent (now r))))] |}.
Proof.
  intros Hen e. subst e. split; [|split].
  - unfold SaveInodeMapping. oprun.
    destruct (upper (entries (now r) !!! en)) as [u|],
             (lower (entries (now r) !!! en)) as [l|]; oprun.
    all: repeat match goal with
                | |- context [op_SaveInodeMapping ?m ?i ?p ?w] =>
                  destruct (op_SaveInodeMapping m i p w) as [[] ?]
                end.
    all: oprun; eexists; rewrite ?app_nil_r, <- ?app_assoc; reflexivity.
  - unfold ResetInodeMappings. oprun.
    repeat match goal with
           | |- context [op_ResetInodeMappings ?m ?w] =>
             destruct (op_ResetInodeMappings m w) as [[] ?]
           end.
    oprun. eexists. rewrite <- ?app_assoc. reflexivity.
  - unfold Keep. oprun. destruct (op_Keep (ms_upper o) dirent (now r)). reflexivity.
Qed.

(** X28.  The references of the overlay mount on its two layers.
    newOverlayMountSource takes one on the upper and one on the lower
    mount and builds the mount from the two; Destroy of that mount drops
    them: over the two together every mount's count is as it was, also
    when upper and lower are one mount. *)
Theorem overlay_mount_references
    (upperM lowerM : msrc) (flags : MountSourceFlags) (r : Run F) :
  let ops := mkOverlayMount upperM lowerM in
  exists m r1 r2 steps,
    newOverlayMountSource upperM lowerM flags r = Done m r1
    /\ In (inr (CallNewMountSource ops "overlay-mount" flags m)) (trace r1)
    /\ (forall x, mountTaken x (trace r1) = mountTaken x (trace r) + owes (Some upperM) x
                                            + owes (Some lowerM) x)
    /\ Destroy ops r1 = Done tt r2
    /\ trace r2 = trace r ++ steps
    /\ forall x, mountTaken x steps = mountDropped x steps.
Proof.
  intros ops. subst ops. unfold newOverlayMountSource, Destroy. oprun.
  destruct (op_NewMountSource (mkOverlayMount upperM lowerM) "overlay-mount" flags (now r))
    as [m w] eqn:Hm.
  eexists _, _, _, _. split; [reflexivity|]. cbn [now trace].
  split; [|split; [|split; [reflexivity|split]]].
  - rewrite !in_app_iff. cbn [In]. auto 10.
  - intros x. rewrite !mountTaken_app. cbn [mountTaken]. unfold owes.
    repeat case_bool_decide; simplify_eq; lia.
  - rewrite <- !app_assoc. reflexivity.
  - intros x. cbn [app mountTaken mountDropped].
    repeat case_bool_decide; lia.
Qed.

(** X29.  The attributes and the link target of an entry are read from one
    layer: overlayUnstableAttr and overlayReadlink each make one call, to
    the Inode that serves the entry (the upper one when there is one), and
    hand on its answer as it is. *)
Theorem attribute_reads_one_layer
    (o : eid) (r : Run F) (i : ino)
    (attr : UnstableAttr) (aerr : option error) (wa : World F)
    (target : string) (rerr : option error) (wr : World F) :
  (let e := entries (now r) !!! o in
   upper e = Some i \/ (upper e = None /\ lower e = Some i)) ->
  op_UnstableAttr i (now r) = ((attr, aerr), wa) ->
  op_Readlink i (now r) = ((target, rerr), wr) ->
  overlayUnstableAttr o r
  = Done (attr, aerr) {| now := wa; trace := trace r ++ [inr (CallUnstableAttr i attr aerr)] |}
  /\ overlayReadlink o r
     = Done (target, rerr)
         {| now := wr; trace := trace r ++ [inr (CallReadlink i target rerr)] |}.
Proof.
  intros He Ha Hr. unfold overlayUnstableAttr, overlayReadlink.
  destruct He as [Hu | [Hu Hl]]; oprun; rewrite ?app_nil_r; split; reflexivity.
Qed.

(** X30.  The Inode NewTestOverlayDir builds.  Given an upper or a lower
    Inode, it returns an overlay Inode whose entry holds the two as they
    were given, with lowerExists not set even when there is a lower Inode;
    TestHasUpperFS and TestHasLowerFS of the Inode say which of the two were
    given.  Its mount is the one built from a new upper mount, which
    revalidates exactly when asked to, and a new lower mount. *)
Theorem NewTestOverlayDir_entry
    (upperI lowerI : option ino) (revalidate : bool) (r : Run F) :
  upperI <> None \/ lowerI <> None ->
  exists i en r' um lm,
    NewTestOverlayDir upperI lowerI revalidate r = Done i r'
    /\ i_overlay (inodes (now r') !!! i) = Some en
    /\ entries (now r') !!! en = mkOverlayEntry false lowerI upperI
    /\ TestHasUpperFS i r' = Done (bool_decide (upperI <> None)) r'
    /\ TestHasLowerFS i r' = Done (bool_decide (lowerI <> None)) r'
    /\ trace r'
       = trace r
         ++ [inr (if revalidate
                  then CallNewRevalidatingMountSource noMountSourceFlags um
                  else CallNewNonCachingMountSource noMountSourceFlags um);
             inr (CallNewNonCachingMountSource noMountSourceFlags lm);
             inr (CallNewMountSource (mkOverlayMount um lm) "" noMountSourceFlags
                    (i_MountSource (inodes (now r') !!! i)))].
Proof.
  intros Hsome. unfold NewTestOverlayDir, TestHasUpperFS, TestHasLowerFS, newOverlayInode.
  destruct revalidate; oprun.
  all: repeat match goal with
              | |- context [op_NewRevalidatingMountSource ?f ?w] =>
                destruct (op_NewRevalidatingMountSource f w) as [? ?] eqn:?
              | |- context [op_NewNonCachingMountSource ?f ?w] =>
                destruct (op_NewNonCachingMountSource f w) as [? ?] eqn:?
              | |- context [op_NewMountSource ?o ?n ?f ?w] =>
                destruct (op_NewMountSource o n f w) as [? ?] eqn:?
              end; oprun.
  all: destruct upperI as [u|], lowerI as [l|]; try (exfalso; destruct Hsome; congruence).
  all: repeat first [ progress oprun
                    | rewrite inodes_withInode | rewrite entries_withInode
                    | rewrite entries_withEntry ].
  all: eexists _, _, _, _, _; (split; [reflexivity|]).
  all: repeat first [ progress oprun
                    | rewrite inodes_withInode | rewrite entries_withInode
                    | rewrite entries_withEntry
                    | rewrite app_nil_r
                    | rewrite bool_decide_eq_true_2 by discriminate
                    | rewrite bool_decide_eq_false_2 by (intros Hx; apply Hx; reflexivity) ].
  all: rewrite <- ?app_assoc; repeat split.
Qed.

End Operations.

(** ** The properties above, on concrete trees *)

(** X1, on a concrete tree.
    "x", a file of the lower layer, looked up in the root. *)
Lemma overlayLookup_dirent_or_error_witness :
  let st := MemFS.start (MemFS.tree ∅ ∅ ∅ ∅) in
  exists d inUpper err st',
    overlayLookup 0 10 "x" st = Done (d, inUpper, err) st'
    /\ (d = None <-> err <> None)
    /\ (forall x, d = Some x -> d_name x = "x")
    /\ (inUpper = true -> exists x, d = Some x /\ IsNegative x = false).
Proof.
  intros st.
  assert (Hrun : exists d inUpper err st',
             overlayLookup 0 10 "x" st = Done (d, inUpper, err) st').
  { eexists _, _, _, _. vm_compute. reflexivity. }
  destruct Hrun as (d & inUpper & err & st' & Hrun).
  exists d, inUpper, err, st'. split; [exact Hrun|].
  exact (overlayLookup_dirent_or_error 0 10 "x" st d inUpper err st' Hrun).
Defined.

(** X2, on a concrete tree.
    The entry built for "x", which the lower layer alone holds. *)
Lemma overlayLookup_entry_invariant_witness :
  let st := MemFS.start (MemFS.tree ∅ ∅ ∅ ∅) in
  exists oi st' en,
    overlayLookup 0 10 "x" st = Done (Some (NewDirent oi "x"), false, None) st'
    /\ i_overlay (inodes (world st') !!! oi) = Some en
    /\ let e := entries (world st') !!! en in
       (upper e <> None \/ lower e <> None)
       /\ false = bool_decide (upper e <> None)
       /\ (lower e <> None -> lowerExists e = true).
Proof.
  intros st.
  assert (Hrun : exists oi st',
             overlayLookup 0 10 "x" st = Done (Some (NewDirent oi "x"), false, None) st').
  { eexists _, _. vm_compute. reflexivity. }
  destruct Hrun as (oi & st' & Hrun).
  destruct (overlayLookup_entry_invariant 0 10 "x" st (NewDirent oi "x") false None st' oi
              Hrun eq_refl) as (en & Hen & Hinv).
  exists oi, st', en. split; [exact Hrun|]. split; [exact Hen|]. exact Hinv.
Defined.

(** X3, on a concrete tree.
    "x" in both layers: the references on the inodes 6 and 3. *)
Lemma overlayLookup_references_witness :
  let st := MemFS.start (MemFS.tree ∅ {[ "x" := 6 ]} ∅ ∅) in
  exists r st' evs,
    overlayLookup 0 10 "x" st = Done r st'
    /\ log st' = log st ++ evs
    /\ forall i,
         taken i evs
         = dropped i evs
           + match fst (fst r) ≫= d_Inode with
             | Some oi =>
               match i_overlay (inodes (world st') !!! oi) with
               | Some en =>
                 owes (upper (entries (world st') !!! en)) i
                 + owes (lower (entries (world st') !!! en)) i
               | None => 0
               end
             | None => 0
             end.
Proof.
  intros st.
  assert (Hrun : exists r st', overlayLookup 0 10 "x" st = Done r st').
  { eexists _, _. vm_compute. reflexivity. }
  destruct Hrun as (r & st' & Hrun).
  destruct (overlayLookup_references 0 10 "x" st r st' Hrun) as (evs & Hlog & Hbal).
  exists r, st', evs. split; [exact Hrun|]. split; [exact Hlog|]. exact Hbal.
Defined.

Section Refusing.
#[local] Existing Instance Sealed.inodeOperations.
#[local] Existing Instance Sealed.mountSourceOperations.
#[local] Existing Instance Sealed.overlayDeps.

(** X4, on a concrete tree.
    The upper directory 2 refuses to be searched. *)
Lemma overlayLookup_upper_error_witness :
  overlayLookup 1 20 "x" Sealed.start
  = Done (None, false, Some EACCES)
         {| world := Sealed.heap; log := [EvLookup 2 "x" None (Some EACCES)] |}.
Proof.
  apply (overlayLookup_upper_error 1 20 "x" Sealed.start 2 None EACCES Sealed.heap).
  - reflexivity.
  - reflexivity.
  - discriminate.
Defined.

(** X5, on a concrete tree.
    The upper directory 1 resolves "x" to the inode 6; the lower directory 2
    refuses to be searched. *)
Lemma overlayLookup_lower_error_witness :
  overlayLookup 0 10 "x" Sealed.start
  = Done (None, false, Some EACCES)
         {| world := Sealed.heap;
            log := [EvLookup 1 "x" (Some (NewDirent 6 "x")) None; EvIncRef 6;
                    EvDirentDecRef (NewDirent 6 "x");
                    EvGetxattr 1 "trusted.overlay.whiteout.x" "" (Some ENODATA);
                    EvLookup 2 "x" None (Some EACCES); EvDecRef 6] |}.
Proof.
  assert (Hnw : ~ (Some ENODATA = None /\ "" = "y")).
  { intros [H _]. discriminate H. }
  at_instance (overlayLookup_lower_error 0 10 "x" Sealed.start 1 2 (NewDirent 6 "x") None
                 Sealed.heap "" (Some ENODATA) Sealed.heap None EACCES Sealed.heap 6
                 ltac:(calc) ltac:(calc) ltac:(calc) ltac:(calc) ltac:(calc) ltac:(calc)
                 Hnw ltac:(calc) ltac:(discriminate)).
Defined.

End Refusing.

(** X6, on a concrete tree.
    "d" is a directory of the lower layer (inode 4) and a file in the upper
    layer (inode 6). *)
Lemma overlayLookup_type_mismatch_witness :
  let st := MemFS.start (MemFS.tree ∅ {[ "d" := 6 ]} ∅ ∅) in
  exists oi en st',
    overlayLookup 0 10 "d" st = Done (Some (NewDirent oi "d"), true, None) st'
    /\ i_StableAttr (inodes (world st') !!! 6) = MemFS.fileAttr 6
    /\ i_overlay (inodes (world st') !!! oi) = Some en
    /\ entries (world st') !!! en = mkOverlayEntry false None (Some 6)
    /\ log st' = [EvLookup 1 "d" (Some (NewDirent 6 "d")) None; EvIncRef 6;
                  EvDirentDecRef (NewDirent 6 "d");
                  EvGetxattr 1 "trusted.overlay.whiteout.d" "" (Some ENODATA);
                  EvLookup 2 "d" (Some (NewDirent 4 "d")) None;
                  EvDirentDecRef (NewDirent 4 "d")].
Proof.
  intros st.
  assert (Hnw : ~ (Some ENODATA = None /\ "" = "y")).
  { intros [H _]. discriminate H. }
  exact (overlayLookup_type_mismatch 0 10 "d" st 1 2 (NewDirent 6 "d") None (world st)
           "" (Some ENODATA) (world st) (NewDirent 4 "d") None (world st) 6 4
           ltac:(calc) ltac:(calc) ltac:(calc) ltac:(calc) ltac:(calc) ltac:(calc) Hnw
           ltac:(calc) ltac:(calc) ltac:(calc) ltac:(vm_compute; discriminate)
           ltac:(calc) ltac:(calc)).
Defined.

(** X7, on a concrete tree.
    The inode 6 is a file of the upper layer, not of the overlay. *)
Lemma overlayRename_outside_overlay_witness :
  let st := MemFS.start (MemFS.tree ∅ ∅ ∅ ∅) in
  let root := NewDirent 10 "/" in
  overlayRename 0 root (NewDirent 6 "x") root "y" true st = Done (Some EXDEV) st.
Proof.
  intros st root.
  apply (overlayRename_outside_overlay 0 root (NewDirent 6 "x") root "y" true st 6 10 10).
  - reflexivity.
  - reflexivity.
  - reflexivity.
  - left. vm_compute. reflexivity.
Defined.

(** X8, on a concrete tree.
    "x", copied up, renamed onto "z", a file of the lower layer. *)
Lemma overlayRename_steps_witness :
  let st := MemFS.start MemOps.busy in
  let root := NewDirent 10 "/" in
  exists res st',
    overlayRename 0 root (NewDirent 11 "x") root "z" true st = Done res st'
    /\ exists reads steps,
         log st' = log st ++ reads ++ steps
         /\ forallb (fun ev => negb (mutation ev)) reads = true
         /\ (true = false -> reads = [])
         /\ ((steps = [] /\ res <> None)
             \/ exists flag, (flag = true -> true = true)
                  /\ renameSteps (F := MemFS.t) (NewDirent 11 "x") root "z" flag steps res).
Proof.
  intros st root.
  assert (Hrun : exists res st',
             overlayRename 0 root (NewDirent 11 "x") root "z" true st = Done res st').
  { eexists _, _. vm_compute. reflexivity. }
  destruct Hrun as (res & st' & Hrun).
  exists res, st'. split; [exact Hrun|].
  exact (overlayRename_steps 0 root (NewDirent 11 "x") root "z" true st res st' Hrun).
Defined.

(** X9, on a concrete tree.
    "x" renamed onto "z", which the lower layer alone holds: Rename is not
    told that it replaces. *)
Lemma overlayRename_flag_witness :
  let st := MemFS.start MemOps.busy in
  let root := NewDirent 10 "/" in
  exists oi st1 res st',
    overlayLookup 0 10 "z" st = Done (Some (NewDirent oi "z"), false, None) st1
    /\ overlayRename 0 root (NewDirent 11 "x") root "z" true st = Done res st'
    /\ exists steps,
         log st' = log st1 ++ EvDirentDecRef (NewDirent oi "z") :: steps
         /\ renameSteps (F := MemFS.t) (NewDirent 11 "x") root "z" false steps res.
Proof.
  intros st root.
  pose (look := overlayLookup 0 10 "z" st).
  pose (st1 := match look with Done _ s => s | Panicked _ => st end).
  pose (oi := match look with
              | Done (Some d, _, _) _ => default 0 (d_Inode d)
              | _ => 0
              end).
  pose (run := overlayRename 0 root (NewDirent 11 "x") root "z" true st).
  pose (res := match run with Done x _ => x | Panicked _ => None end).
  pose (st' := match run with Done _ s => s | Panicked _ => st end).
  exists oi, st1, res, st'.
  split; [calc|]. split; [calc|].
  apply (overlayRename_flag 0 root (NewDirent 11 "x") root "z" st 11 10 10 0
           (NewDirent oi "z") false st1 res st');
    try calc; vm_compute; discriminate.
Defined.

(** X10, on a concrete tree.
    "x" renamed onto "q", a name that neither layer holds. *)
Lemma overlayRename_stale_replaced_witness :
  let st := MemFS.start MemOps.busy in
  let root := NewDirent 10 "/" in
  exists st1 res st',
    overlayLookup 0 10 "q" st = Done (None, false, Some ENOENT) st1
    /\ overlayRename 0 root (NewDirent 11 "x") root "q" true st = Done res st'
    /\ exists steps,
         log st' = log st1 ++ steps
         /\ renameSteps (F := MemFS.t) (NewDirent 11 "x") root "q" true steps res.
Proof.
  intros st root.
  pose (look := overlayLookup 0 10 "q" st).
  pose (st1 := match look with Done _ s => s | Panicked _ => st end).
  pose (run := overlayRename 0 root (NewDirent 11 "x") root "q" true st).
  pose (res := match run with Done x _ => x | Panicked _ => None end).
  pose (st' := match run with Done _ s => s | Panicked _ => st end).
  exists st1, res, st'.
  split; [calc|]. split; [calc|].
  apply (overlayRename_stale_replaced 0 root (NewDirent 11 "x") root "q" st 11 10 10 0
           None false st1 res st');
    try calc; vm_compute; discriminate.
Defined.

(** X11, on a concrete tree.
    "x", which exists in the lower layer, renamed to "q": the marker for "x"
    is written on the upper directory. *)
Lemma overlayRename_leaves_marker_witness :
  let st := MemFS.start MemOps.busy in
  let root := NewDirent 10 "/" in
  exists st',
    overlayRename 0 root (NewDirent 11 "x") root "q" false st = Done None st'
    /\ log st' = [EvCopyUp (NewDirent 11 "x") None; EvCopyUp root None;
                  EvRename 1 (Some 1) "x" (Some 1) "q" false None;
                  EvSetxattr 1 "trusted.overlay.whiteout.x" "y" None].
Proof.
  intros st root.
  pose (w3 := snd (MemFS.Rename 1 (Some 1) "x" (Some 1) "q" false MemOps.busy)).
  pose (w4 := snd (MemFS.Setxattr 1 "trusted.overlay.whiteout.x" "y" w3)).
  destruct (overlayRename_leaves_marker 0 root (NewDirent 11 "x") root "q" st 11 10 10
              MemOps.busy MemOps.busy w3 1 0 0 1)
    as [_ Hmarker]; try calc; try (vm_compute; discriminate).
  specialize (Hmarker 0 1 None w4).
  eexists. split.
  - apply Hmarker; calc.
  - vm_compute. reflexivity.
Defined.

(** X12, on a concrete tree.
    "x", a file of the lower layer, removed from the root. *)
Lemma overlayRemove_steps_witness :
  let st := MemFS.start (MemFS.tree ∅ ∅ ∅ ∅) in
  exists res st' steps,
    overlayRemove 0 (NewDirent 10 "/") (NewDirent 11 "x") st = Done res st'
    /\ log st' = log st ++ steps
    /\ removeSteps (F := MemFS.t) (NewDirent 10 "/") "x" steps res.
Proof.
  intros st.
  assert (Hrun : exists res st',
             overlayRemove 0 (NewDirent 10 "/") (NewDirent 11 "x") st = Done res st').
  { eexists _, _. vm_compute. reflexivity. }
  destruct Hrun as (res & st' & Hrun).
  destruct (overlayRemove_steps 0 (NewDirent 10 "/") (NewDirent 11 "x") st res st' Hrun)
    as (steps & Hlog & Hsteps).
  exists res, st', steps. split; [exact Hrun|]. split; [exact Hlog|]. exact Hsteps.
Defined.

(** X13, on a concrete tree.
    "n" was made in the overlay and exists in the upper layer only. *)
Lemma overlayRemove_upper_only_witness :
  let st := MemFS.start MemOps.busy in
  exists st',
    overlayRemove 0 (NewDirent 10 "/") (NewDirent 15 "n") st = Done None st'
    /\ log st' = [EvCopyUp (NewDirent 10 "/") None; EvRemove 1 "n" None].
Proof.
  intros st.
  pose (w2 := snd (MemFS.Remove 1 "n" MemOps.busy)).
  eexists. split.
  - apply (overlayRemove_upper_only 0 (NewDirent 10 "/") (NewDirent 15 "n") st
             MemOps.busy 15 7 5 1 None w2); calc.
  - vm_compute. reflexivity.
Defined.

(** X14, on a concrete tree.
    The attributes of the upper directory: one of the user, the marker of
    "x", and one whose name the reserved prefix starts with. *)
Lemma overlayListxattr_result_witness :
  let xattrs : gmap string string :=
    {[ "user.a" := "1"; "trusted.overlay.whiteout.x" := "y"; "trusted." := "v" ]} in
  let st := MemFS.start (MemFS.tree xattrs ∅ ∅ ∅) in
  exists kept,
    overlayListxattr 0 st
    = Done (kept, None) {| world := world st; log := [EvListxattr 1 (dom xattrs) None] |}
    /\ (forall name,
          name ∈ kept <-> name ∈ dom xattrs /\ HasPrefix "trusted.overlay." name = false)
    /\ ("" ∉ kept)
    /\ ("trusted.overlay." ∉ kept)
    /\ forall name, name ∈ kept ->
         overlayGetxattr 0 name st
         = (let '(r, w) := MemFS.Getxattr 1 name (world st) in
            Done r {| world := w; log := [EvGetxattr 1 name (fst r) (snd r)] |}).
Proof.
  intros xattrs st.
  exact (overlayListxattr_result 0 st 1 (dom xattrs) None (world st)
           (or_introl eq_refl) eq_refl).
Defined.

(** X15, on a concrete tree.
    The upper directory resolves as a link to itself; the overlay hands out
    nothing. *)
Lemma overlayGetlink_never_resolves_witness :
  let r := MemOps.start (MemFS.tree ∅ ∅ ∅ ∅) in
  overlayGetlink 0 r
  = Done (None, Some EACCES)
         {| now := now r;
            trace := [inr (CallGetlink 1 (Some (NewDirent 1 "self")) None);
                      inl (EvDirentDecRef (NewDirent 1 "self"))] |}.
Proof.
  intros r.
  exact (overlayGetlink_never_resolves 0 r 1 (Some (NewDirent 1 "self")) None (now r)
           (or_introl eq_refl) eq_refl).
Defined.

(** X16, on a concrete tree.
    "x" exists in the lower layer only. *)
Lemma overlayBind_without_upper_witness :
  let r := MemOps.start (MemFS.tree ∅ ∅ ∅ ∅) in
  overlayBind 1 "sock" (MemOps.endpoint 0) (MemOps.perms MemFS.rwx) r
  = Done (None, Some EOPNOTSUPP) r.
Proof.
  intros r.
  apply (overlayBind_without_upper 1 "sock" (MemOps.endpoint 0) (MemOps.perms MemFS.rwx) r).
  reflexivity.
Defined.

(** X17, on a concrete tree.
    A socket bound in the root: the layer binds it at the inode 6. *)
Lemma overlayBind_socket_witness :
  let r := MemOps.start (MemFS.tree ∅ ∅ ∅ ∅) in
  exists oi en r',
    overlayBind 0 "sock" (MemOps.endpoint 0) (MemOps.perms MemFS.rwx) r
    = Done (Some (NewDirent oi "sock"), None) r'
    /\ i_overlay (inodes (now r') !!! oi) = Some en
    /\ i_MountSource (inodes (now r') !!! oi) = 1
    /\ entries (now r') !!! en = mkOverlayEntry false None (Some 6)
    /\ trace r' = [inr (CallBind 1 "sock" (MemOps.endpoint 0) (MemOps.perms MemFS.rwx)
                          (Some (NewDirent 6 "sock")) None);
                   inl (EvIncRef 6); inl (EvDirentDecRef (NewDirent 6 "sock"))].
Proof.
  intros r.
  exact (overlayBind_socket 0 "sock" (MemOps.endpoint 0) (MemOps.perms MemFS.rwx) r 1 (NewDirent 6 "sock") 6 (now r)
           eq_refl eq_refl eq_refl).
Defined.

(** X18, on a concrete tree.
    Two overlays stacked on the overlay of the tree: the endpoint is the
    one of the upper directory at the bottom. *)
Lemma overlayBoundEndpoint_nested_witness :
  let r := MemOps.start MemOps.nested in
  overlayBoundEndpoint 3 4 "sock" r
  = Done (Some (MemOps.endpoint 1))
         {| now := now r; trace := [inr (CallBoundEndpoint 1 "sock" (MemOps.endpoint 1))] |}.
Proof.
  intros r.
  assert (Hserves : serves (now r) 4 2 1).
  { apply (serves_nested _ 4 13 3 1 1); try calc.
    apply (serves_nested _ 3 10 0 0 1); try calc.
    apply serves_upper. calc. }
  apply (overlayBoundEndpoint_nested 3 4 "sock" r 2 1 (MemOps.endpoint 1) (now r) Hserves).
  - reflexivity.
  - lia.
Defined.

(** X19, on a concrete tree.
    The layer reports the magic number 0xef53. *)
Lemma overlayStatFS_result_witness :
  let r := MemOps.start (MemFS.tree ∅ ∅ ∅ ∅) in
  overlayStatFS 0 r
  = Done (MemOps.info 0x794c7630 6, None)
         {| now := now r; trace := [inr (CallStatFS 1 (MemOps.info 0xef53 6) None)] |}.
Proof.
  intros r.
  assert (Hstat : op_StatFS 1 (now r) = ((MemOps.info 0xef53 6, None), now r)) by calc.
  exact (overlayStatFS_result 0 r 1 (MemOps.info 0xef53 6) None (now r)
           (or_introl eq_refl) Hstat).
Defined.

(** X20, on a concrete tree.
    "x" exists in the lower layer only, and this layer cannot copy up. *)
Lemma overlayGetFile_copy_up_failed_witness :
  let r := MemOps.start (MemFS.tree ∅ ∅ ∅ ∅) in
  let d := NewDirent 11 "x" in
  overlayGetFile 1 d (MemOps.flags true false false true) r
  = Done (None, Some EOPNOTSUPP)
         {| now := now r; trace := [inr (CallCopyUp d (Some EOPNOTSUPP))] |}.
Proof.
  intros r d.
  exact (overlayGetFile_copy_up_failed 1 d (MemOps.flags true false false true) r
           EOPNOTSUPP (now r) eq_refl eq_refl).
Defined.

(** X21, on a concrete tree.
    The root opened to write: the file of the upper directory is wrapped. *)
Lemma overlayGetFile_wraps_upper_witness :
  let r := MemOps.start (MemFS.tree ∅ ∅ ∅ ∅) in
  let d := NewDirent 10 "/" in
  let flags := MemOps.flags true false false true in
  let flags' := MemOps.flags true true true true in
  let fops := mkOverlayFileOperations (Some (MemOps.file 1)) None in
  overlayGetFile 0 d flags r
  = Done (Some (MemOps.file 110), None)
         {| now := now r;
            trace := [inr (CallCopyUp d None);
                      inr (CallOverlayFile (Some 1) flags (Some (MemOps.file 1)) None);
                      inr (CallNewFile d flags' fops (MemOps.file 110))] |}.
Proof.
  intros r d flags flags' fops.
  exact (overlayGetFile_wraps_upper 0 d flags r (now r) 1 (MemOps.file 1) (now r)
           (MemOps.file 110) (now r)
           eq_refl eq_refl eq_refl eq_refl).
Defined.

(** X22, on a concrete tree.
    "x" opened to read: the file of the lower layer is wrapped. *)
Lemma overlayGetFile_lower_read_only_witness :
  let r := MemOps.start (MemFS.tree ∅ ∅ ∅ ∅) in
  let d := NewDirent 11 "x" in
  let flags := MemOps.flags false false false true in
  let flags' := MemOps.flags false true false true in
  let fops := mkOverlayFileOperations None (Some (MemOps.file 3)) in
  overlayGetFile 1 d flags r
  = Done (Some (MemOps.file 111), None)
         {| now := now r;
            trace := [inr (CallOverlayFile (Some 3) flags (Some (MemOps.file 3)) None);
                      inr (CallNewFile d flags' fops (MemOps.file 111))] |}.
Proof.
  intros r d flags flags' fops.
  exact (overlayGetFile_lower_read_only 1 d flags r 3 (MemOps.file 3) (now r)
           (MemOps.file 111) (now r)
           eq_refl eq_refl eq_refl eq_refl eq_refl).
Defined.

(** X23, on a concrete tree.
    "x" exists in the lower layer only, and this layer cannot copy up. *)
Lemma setters_copy_up_failed_witness :
  let r := MemOps.start (MemFS.tree ∅ ∅ ∅ ∅) in
  let d := NewDirent 11 "x" in
  let r' := {| now := now r; trace := [inr (CallCopyUp d (Some EOPNOTSUPP))] |} in
  overlaySetPermissions 1 d (MemOps.perms MemFS.rwx) r = Done false r'
  /\ overlaySetOwner 1 d (MemOps.owner 0) r = Done (Some EOPNOTSUPP) r'
  /\ overlaySetTimestamps 1 d (MemOps.time 0) r = Done (Some EOPNOTSUPP) r'
  /\ overlayTruncate 1 d 0%Z r = Done (Some EOPNOTSUPP) r'.
Proof.
  intros r d r'.
  exact (setters_copy_up_failed 1 d r EOPNOTSUPP (now r) (MemOps.perms MemFS.rwx)
           (MemOps.owner 0) (MemOps.time 0) 0%Z eq_refl).
Defined.

(** X24, on a concrete tree.
    "d" exists in the lower layer only, and this layer cannot copy up. *)
Lemma creation_copy_up_failed_witness :
  let r := MemOps.start (MemFS.tree ∅ ∅ ∅ ∅) in
  let parent := NewDirent 12 "d" in
  let r' := {| now := now r; trace := [inl (EvCopyUp parent (Some EOPNOTSUPP))] |} in
  overlayCreateDirectory 2 parent "new" (MemOps.perms MemFS.rwx) r = Done (Some EOPNOTSUPP) r'
  /\ overlayCreateLink 2 parent "old" "new" r = Done (Some EOPNOTSUPP) r'
  /\ overlayCreateFifo 2 parent "new" (MemOps.perms MemFS.rwx) r = Done (Some EOPNOTSUPP) r'
  /\ overlayCreateHardLink 2 parent (NewDirent 11 "x") "new" r = Done (Some EOPNOTSUPP) r'.
Proof.
  intros r parent r'.
  exact (creation_copy_up_failed 2 parent r EOPNOTSUPP (now r) "new" "old"
           (MemOps.perms MemFS.rwx)
           (NewDirent 11 "x") eq_refl).
Defined.

(** X25, on a concrete tree.
    A hard link to "x", which is copied up, made in the root. *)
Lemma overlayCreateHardLink_upper_witness :
  let r := MemOps.start MemOps.busy in
  let parent := NewDirent 10 "/" in
  let target := NewDirent 11 "x" in
  overlayCreateHardLink 0 parent target "link" r
  = Done None
      {| now := now r;
         trace := [inl (EvCopyUp parent None); inl (EvCopyUp target None);
                   inr (CallCreateHardLink 1 (Some 6) "link" None)] |}.
Proof.
  intros r parent target.
  assert (Hparent : op_copyUpLockedForRename parent (now r) = (None, now r)) by calc.
  assert (Htarget : op_copyUpLockedForRename target (now r) = (None, now r)) by calc.
  destruct (overlayCreateHardLink_upper 0 parent target "link" r (now r) None (now r)
              Hparent Htarget) as [_ Hlink].
  apply (Hlink 1 11 1 None (now r)); calc.
Defined.

(** X27, on a concrete tree.
    The root of the tree, which has both counterparts. *)
Lemma overlay_mount_delegates_witness :
  let r := MemOps.start (MemFS.tree ∅ ∅ ∅ ∅) in
  let o := mkOverlayMount 1 2 in
  (exists w',
     SaveInodeMapping o 10 "/" r
     = Done tt {| now := w';
                  trace := [inr (CallSaveInodeMapping 1 1 "/");
                            inr (CallSaveInodeMapping 2 2 "/")] |})
  /\ (exists w',
        ResetInodeMappings o r
        = Done tt {| now := w';
                     trace := [inr (CallResetInodeMappings 1);
                               inr (CallResetInodeMappings 2)] |})
  /\ Keep o (NewDirent 10 "/") r
     = Done true {| now := now r; trace := [inr (CallKeep 1 (NewDirent 10 "/") true)] |}.
Proof.
  intros r o.
  exact (overlay_mount_delegates o 10 "/" (NewDirent 10 "/") r 0 eq_refl).
Defined.

(** X29, on a concrete tree.
    The root of the tree is served by the upper directory. *)
Lemma attribute_reads_one_layer_witness :
  let r := MemOps.start (MemFS.tree ∅ ∅ ∅ ∅) in
  overlayUnstableAttr 0 r
  = Done (MemOps.attr 1, None)
      {| now := now r; trace := [inr (CallUnstableAttr 1 (MemOps.attr 1) None)] |}
  /\ overlayReadlink 0 r
     = Done ("", Some EINVAL)
         {| now := now r; trace := [inr (CallReadlink 1 "" (Some EINVAL))] |}.
Proof.
  intros r.
  exact (attribute_reads_one_layer 0 r 1 (MemOps.attr 1) None (now r) "" (Some EINVAL) (now r)
           (or_introl eq_refl) eq_refl eq_refl).
Defined.

(** X30, on a concrete tree.
    A test directory over the two roots of the tree. *)
Lemma NewTestOverlayDir_entry_witness :
  let r := MemOps.start (MemFS.tree ∅ ∅ ∅ ∅) in
  exists i en r' um lm,
    NewTestOverlayDir (Some 1) (Some 2) true r = Done i r'
    /\ i_overlay (inodes (now r') !!! i) = Some en
    /\ entries (now r') !!! en = mkOverlayEntry false (Some 2) (Some 1)
    /\ TestHasUpperFS i r' = Done true r'
    /\ TestHasLowerFS i r' = Done true r'
    /\ trace r'
       = [inr (CallNewRevalidatingMountSource noMountSourceFlags um);
          inr (CallNewNonCachingMountSource noMountSourceFlags lm);
          inr (CallNewMountSource (mkOverlayMount um lm) "" noMountSourceFlags
                 (i_MountSource (inodes (now r') !!! i)))].
Proof.
  intros r.
  exact (NewTestOverlayDir_entry (Some 1) (Some 2) true r (or_introl (Some_ne_None 1))).
Defined.
